(** * The commit-reveal coordinator of the lifecycle panel

    A shallow embedding of
    [packages/frontend/src/components/LifecyclePanel.tsx]: the secret store
    on top of [localStorage], the commitment hash, the status poll, the
    action runner and the auto-reveal effect of the React component, followed
    by the properties of the specification that concern them. *)

From Stdlib Require Import Ascii.
From stdpp Require Import base numbers list strings gmap pretty.

Local Open Scope N_scope.

(** ** JavaScript values the panel works with *)

(** A Rocq [string] stands for a JavaScript string whose UTF-16 code units
    are all below 256; one [ascii] is one code unit.  Addresses, decimal
    hand numbers and the hexadecimal or base-36 secrets all live in that
    range.  A [Uint8Array] is a list of numbers below 256. *)
Module JS.

Definition code (c : ascii) : N := N_of_ascii c.

(** The outcome of a call that may raise, or of a promise that settled. *)
Inductive result (A : Type) : Type :=
| Ok (a : A)
| Throw (message : string).
Arguments Ok {A} a.
Arguments Throw {A} message.

(** [String.prototype.toLowerCase] on one code unit: the letters A-Z and
    the Latin-1 capitals U+00C0..U+00DE, the multiplication sign U+00D7
    apart, move up by 32; every other unit below 256 is its own lower
    case. *)
Definition lower_unit (c : ascii) : ascii :=
  let n := code c in
  if ((65 <=? n) && (n <=? 90))
     || ((192 <=? n) && (n <=? 222) && negb (n =? 215))
  then ascii_of_N (n + 32) else c.

Fixpoint toLowerCase (s : string) : string :=
  match s with
  | EmptyString => EmptyString
  | String c r => String (lower_unit c) (toLowerCase r)
  end.

(** [s.slice(n)] for a non-negative [n]. *)
Fixpoint slice (n : nat) (s : string) : string :=
  match n, s with
  | O, _ => s
  | S _, EmptyString => EmptyString
  | S k, String _ r => slice k r
  end.

(** Truthiness of a string: only the empty string is falsy. *)
Definition truthy (s : string) : bool :=
  match s with EmptyString => false | String _ _ => true end.

(** [new TextEncoder().encode(s)]: UTF-8, one byte for a unit below 128 and
    two for the rest of the range. *)
Definition encode_unit (c : ascii) : list N :=
  let n := code c in
  if n <? 128 then [n] else [192 + n / 64; 128 + n mod 64].

Fixpoint encode (s : string) : list N :=
  match s with
  | EmptyString => []
  | String c r => encode_unit c ++ encode r
  end.

Definition hex_digit (d : N) : ascii :=
  if d <? 10 then ascii_of_N (48 + d) else ascii_of_N (87 + d).

(** [b.toString(16).padStart(2, "0")] for a byte [b]. *)
Definition hex2 (b : N) : string :=
  String (hex_digit (b / 16)) (String (hex_digit (b mod 16)) EmptyString).

(** [bytes.map(hex2).join("")]. *)
Fixpoint hex_join (bs : list N) : string :=
  match bs with
  | [] => EmptyString
  | b :: r => hex2 b +:+ hex_join r
  end.

(** [Array.prototype.indexOf] on a list of seat numbers; -1 when absent. *)
Fixpoint indexOf_from (i : Z) (l : list nat) (x : nat) : Z :=
  match l with
  | [] => (-1)%Z
  | y :: r => if Nat.eqb y x then i else indexOf_from (i + 1)%Z r x
  end.

Definition indexOf (l : list nat) (x : nat) : Z := indexOf_from 0%Z l x.

(** [arr[i] === true] for an index that may be negative or out of range. *)
Definition at_true (l : list bool) (i : Z) : bool :=
  if (i <? 0)%Z then false
  else match l !! Z.to_nat i with Some b => b | None => false end.

End JS.

Export JS (result, Ok, Throw).

(** ** SHA3-256

    The function [sha3_256] that the panel imports from
    [@noble/hashes/sha3].  The library is not part of the repository; the
    definition follows FIPS 202 in the streaming form of the library: the
    sponge keeps 25 lanes of 64 bits and a write position, bytes are xored
    into the state one at a time and the permutation runs whenever a block
    of 136 bytes is full.  The test vectors among the properties pin it
    down. *)
Module Sha3.

Definition mask64 : N := N.ones 64.

Definition rotl64 (x n : N) : N :=
  N.lor (N.land (N.shiftl x n) mask64) (N.shiftr x (64 - n)).

Definition lane (st : list N) (i : nat) : N := nth i st 0.

Definition rotation : list N :=
  [ 0;  1; 62; 28; 27;
   36; 44;  6; 55; 20;
    3; 10; 43; 25; 39;
   41; 45; 15; 21;  8;
   18;  2; 61; 56; 14].

Definition round_constants : list N :=
  [0x0000000000000001; 0x0000000000008082; 0x800000000000808A;
   0x8000000080008000; 0x000000000000808B; 0x0000000080000001;
   0x8000000080008081; 0x8000000000008009; 0x000000000000008A;
   0x0000000000000088; 0x0000000080008009; 0x000000008000000A;
   0x000000008000808B; 0x800000000000008B; 0x8000000000008089;
   0x8000000000008003; 0x8000000000008002; 0x8000000000000080;
   0x000000000000800A; 0x800000008000000A; 0x8000000080008081;
   0x8000000000008080; 0x0000000080000001; 0x8000000080008008].

Definition column (st : list N) (x : nat) : N :=
  N.lxor (lane st x)
    (N.lxor (lane st (x + 5))
       (N.lxor (lane st (x + 10))
          (N.lxor (lane st (x + 15)) (lane st (x + 20))))).

Definition theta (st : list N) : list N :=
  let c := map (column st) (seq 0 5) in
  let d x := N.lxor (nth ((x + 4) mod 5) c 0)
                    (rotl64 (nth ((x + 1) mod 5) c 0) 1) in
  map (λ i, N.lxor (lane st i) (d (i mod 5)%nat)) (seq 0 25).

Definition rho_pi (st : list N) : list N :=
  map (λ j, let x := (j mod 5)%nat in
            let y := (j / 5)%nat in
            let i := ((x + 3 * y) mod 5 + 5 * x)%nat in
            rotl64 (lane st i) (nth i rotation 0)) (seq 0 25).

Definition chi (st : list N) : list N :=
  map (λ j, let x := (j mod 5)%nat in
            let row := (5 * (j / 5))%nat in
            N.lxor (lane st j)
              (N.ldiff (lane st ((x + 2) mod 5 + row))
                       (lane st ((x + 1) mod 5 + row)))) (seq 0 25).

Definition iota (rc : N) (st : list N) : list N := alter (N.lxor rc) 0%nat st.

Definition round (st : list N) (rc : N) : list N :=
  iota rc (chi (rho_pi (theta st))).

Definition keccak_f (st : list N) : list N := fold_left round round_constants st.

Definition block_len : nat := 136.

Record sponge := { lanes : list N; pos : nat }.

Definition xor_byte (st : list N) (p : nat) (b : N) : list N :=
  alter (λ l, N.lxor l (N.shiftl b (8 * N.of_nat (p mod 8)))) (p / 8)%nat st.

(** One step of [update]: [state[pos++] ^= byte], then the permutation
    when the block is full. *)
Definition absorb (sp : sponge) (b : N) : sponge :=
  let st := xor_byte (lanes sp) (pos sp) b in
  if Nat.eqb (S (pos sp)) block_len
  then {| lanes := keccak_f st; pos := 0 |}
  else {| lanes := st; pos := S (pos sp) |}.

Definition update (sp : sponge) (data : list N) : sponge := fold_left absorb data sp.

(** [finish]: the domain suffix 0x06 at the write position, the final bit
    in the last byte of the block, one more permutation. *)
Definition finish (sp : sponge) : list N :=
  keccak_f (xor_byte (xor_byte (lanes sp) (pos sp) 0x06) (block_len - 1) 0x80).

Definition state_byte (st : list N) (k : nat) : N :=
  N.land (N.shiftr (lane st (k / 8)) (8 * N.of_nat (k mod 8))) 255.

Definition init : sponge := {| lanes := replicate 25 0; pos := 0 |}.

Definition sha3_256 (data : list N) : list N :=
  map (state_byte (finish (update init data))) (seq 0 32).

End Sha3.

(** ** [localStorage] *)
Module Storage.

(** The browser's store for the page's origin: the items, whether script
    may touch the store at all (it may not when storage is disabled, and
    every access then raises), and the room the origin is given, counted
    in code units of keys and values. *)
Record localStorage := {
  items : gmap string string;
  accessible : bool;
  quota : nat;
}.

Definition used (m : gmap string string) : nat :=
  map_fold (λ k v acc, String.length k + String.length v + acc)%nat 0%nat m.

Definition getItem (ls : localStorage) (key : string) : result (option string) :=
  if accessible ls then Ok (items ls !! key) else Throw "SecurityError".

Definition setItem (ls : localStorage) (key value : string) : result localStorage :=
  if accessible ls then
    let m := <[key := value]> (items ls) in
    if (used m <=? quota ls)%nat
    then Ok {| items := m; accessible := true; quota := quota ls |}
    else Throw "QuotaExceededError"
  else Throw "SecurityError".

Definition removeItem (ls : localStorage) (key : string) : result localStorage :=
  if accessible ls
  then Ok {| items := delete key (items ls); accessible := true; quota := quota ls |}
  else Throw "SecurityError".

End Storage.

Export Storage (localStorage).

(** [window]: absent where [typeof window === "undefined"], otherwise the
    page's [localStorage]. *)
Abbreviation Window := (option localStorage).

(** ** The game phases

    Modelled from the spec: [config/contracts], which defines [GAME_PHASES],
    is not among the sources embedded here.  The phases are numbers in the
    order the specification lists them; the seat view of the table
    ([PokerTable]) confirms that [PREFLOP] is 3. *)
Module GAME_PHASES.
Definition WAITING : N := 0.
Definition COMMIT : N := 1.
Definition REVEAL : N := 2.
Definition PREFLOP : N := 3.
Definition FLOP : N := 4.
Definition TURN : N := 5.
Definition RIVER : N := 6.
Definition SHOWDOWN : N := 7.
End GAME_PHASES.

(** ** What the panel does to the outside *)

Inductive action_name := start | commit | reveal | leave | sitout.

Inductive call :=
| StartHand (table : string)
| SubmitCommit (table : string) (commitment : list N)
| RevealSecret (table : string) (secret : list N)
| LeaveTable (table : string)
| LeaveAfterHand (table : string)
| CancelLeaveAfterHand (table : string)
| SitOut (table : string)
| SitIn (table : string)
| OnRefresh
| ConsoleLog (hand secretLength : N)
| ConsoleWarn (message : string)
| ConsoleError (name : action_name) (message : string).

(** One entry of the trace: a call, and the hand number the panel showed
    when it was made. *)
Record entry := { at_hand : N; made : call }.

(** The world outside the component: the window and the calls made so far,
    oldest first. *)
Record World := { window : Window; trace : list entry }.

Global Instance action_name_eq_dec : EqDecision action_name.
Proof. solve_decision. Defined.

(** ** A monad for code that changes the world and may raise *)
Module Eff.

Definition M (A : Type) : Type := World → result A * World.

Definition ret {A} (a : A) : M A := λ w, (Ok a, w).

Definition bind {A B} (m : M A) (k : A → M B) : M B :=
  λ w, match m w with
       | (Ok a, w') => k a w'
       | (Throw e, w') => (Throw e, w')
       end.

Definition throw {A} (message : string) : M A := λ w, (Throw message, w).

(** [try { body } catch { }] with an empty handler. *)
Definition try_ignore (body : M unit) : M unit :=
  λ w, match body w with
       | (Ok _, w') => (Ok tt, w')
       | (Throw _, w') => (Ok tt, w')
       end.

Definition get_window : M Window := λ w, (Ok (window w), w).

(** Makes a call to the outside: it goes to the end of the trace. *)
Definition emit (hand : N) (c : call) : M unit :=
  λ w, (Ok tt, {| window := window w;
                  trace := trace w ++ [{| at_hand := hand; made := c |}] |}).

(** Lifts a storage operation that returns the new store. *)
Definition storage_write (op : localStorage → result localStorage) : M unit :=
  λ w, match window w with
       | None => (Throw "ReferenceError", w)
       | Some ls =>
           match op ls with
           | Ok ls' => (Ok tt, {| window := Some ls'; trace := trace w |})
           | Throw e => (Throw e, w)
           end
       end.

End Eff.

Notation "'do' x <- m ;; k" := (Eff.bind m (λ x, k))
  (at level 10, x name, m at level 99, k at level 200).
Notation "'exec' m ;; k" := (Eff.bind m (λ _, k))
  (at level 10, m at level 99, k at level 200).

(** ** The secret store and the commitment hash *)

(** Returns the SHA3-256 hash as bytes for contract submission. *)
Definition hashSecretToBytes (secret : string) : option (list N) :=
  if JS.truthy secret then Some (Sha3.sha3_256 (JS.encode secret)) else None.

Definition getSecretStorageKey (tableAddress : string)
    (playerAddress : option string) (handNumber : N) : option string :=
  match playerAddress with
  | None => None
  | Some player =>
      if JS.truthy tableAddress && JS.truthy player
      then Some (JS.toLowerCase
                   ("holdem_secret_" +:+ tableAddress +:+ "_" +:+ player
                    +:+ "_" +:+ pretty handNumber))
      else None
  end.

Definition loadStoredSecret (w : Window) (tableAddress : string)
    (playerAddress : option string) (handNumber : N) : string :=
  match getSecretStorageKey tableAddress playerAddress handNumber, w with
  | Some key, Some ls =>
      match Storage.getItem ls key with
      | Ok (Some v) => v   (* [v || ""] is [v] also when [v] is empty *)
      | Ok None => ""
      | Throw _ => ""
      end
  | _, _ => ""
  end.

Definition saveSecret (tableAddress : string) (playerAddress : option string)
    (handNumber : N) (secret : string) : Eff.M unit :=
  do w <- Eff.get_window;;
  match getSecretStorageKey tableAddress playerAddress handNumber, w with
  | Some key, Some _ =>
      Eff.try_ignore
        (if JS.truthy secret
         then Eff.storage_write (λ ls, Storage.setItem ls key secret)
         else Eff.storage_write (λ ls, Storage.removeItem ls key))
  | _, _ => Eff.ret tt
  end.

(** What the random sources hand to one call of [generateSecret]: the 32
    bytes [window.crypto.getRandomValues] wrote, or, where [window.crypto]
    is missing, the two texts [Math.random().toString(36)] produced. *)
Inductive entropy :=
| CryptoBytes (bytes : list N)
| MathRandom (first second : string).

(** The text [generateSecret] makes of them. *)
Definition randomSecret (e : entropy) : string :=
  match e with
  | CryptoBytes bytes => JS.hex_join bytes
  | MathRandom first second => JS.slice 2 first +:+ JS.slice 2 second
  end.

(** Generate a cryptographically secure random secret.  Reading
    [window.crypto] raises where there is no [window]. *)
Definition generateSecret (e : entropy) : Eff.M string :=
  do w <- Eff.get_window;;
  match w with
  | None => Eff.throw "ReferenceError"
  | Some _ => Eff.ret (randomSecret e)
  end.

(** Handle "Request Cards": generates the secret and submits the commit in
    one click.  The result is that of the part that runs before the promise
    of [submitCommit] is awaited. *)
Definition handleRequestCards (e : entropy) (tableAddress : string)
    (playerAddress : option string) (handNumber : N) : Eff.M unit :=
  do newSecret <- generateSecret e;;
  exec saveSecret tableAddress playerAddress handNumber newSecret;;
  match hashSecretToBytes newSecret with
  | None => Eff.throw "Failed to generate secret hash"
  | Some hashBytes =>
      exec Eff.emit handNumber
           (ConsoleLog handNumber (N.of_nat (String.length newSecret)));;
      Eff.emit handNumber (SubmitCommit tableAddress hashBytes)
  end.

(** ** Request-cards, operation by operation

    A function of [Eff.M] gives the world a run ends in.  A write to the
    store and a call touch different parts of the world, so the world at the
    end does not tell which of the two came first.  Here [generateSecret],
    [saveSecret] and [handleRequestCards] are written once more, statement
    by statement, as sequences of the operations they perform on the
    outside; running such a sequence gives, next to the result and the
    world, the operations in the order in which they were performed, each
    call with the store as it was when the call was made. *)
Module Steps.

Inductive prog (A : Type) : Type :=
| Ret (a : A)
| Raise (message : string)
| ReadWindow (k : Window → prog A)
| SetItem (key value : string) (k : result unit → prog A)
| RemoveItem (key : string) (k : result unit → prog A)
| Call (hand : N) (c : call) (k : prog A).
Arguments Ret {A} a.
Arguments Raise {A} message.
Arguments ReadWindow {A} k.
Arguments SetItem {A} key value k.
Arguments RemoveItem {A} key k.
Arguments Call {A} hand c k.

Fixpoint bind {A B} (m : prog A) (f : A → prog B) : prog B :=
  match m with
  | Ret a => f a
  | Raise message => Raise message
  | ReadWindow k => ReadWindow (λ w, bind (k w) f)
  | SetItem key value k => SetItem key value (λ r, bind (k r) f)
  | RemoveItem key k => RemoveItem key (λ r, bind (k r) f)
  | Call hand c k => Call hand c (bind k f)
  end.

(** [try { ... } catch { }] around a storage operation: whatever the
    outcome, the program goes on. *)
Definition swallowed (outcome : result unit) : prog unit := Ret tt.

(** One operation as it was performed: a write to the store with its
    outcome, or a call with the window as it was at the call. *)
Inductive effect :=
| DidSetItem (key value : string) (outcome : result unit)
| DidRemoveItem (key : string) (outcome : result unit)
| DidCall (hand : N) (c : call) (seen : Window).

(** Runs the operations on the world, first to last. *)
Fixpoint perform {A} (m : prog A) (w : World) : result A * World * list effect :=
  match m with
  | Ret a => (Ok a, w, [])
  | Raise message => (Throw message, w, [])
  | ReadWindow k => perform (k (window w)) w
  | SetItem key value k =>
      let '(outcome, w1) :=
        Eff.storage_write (λ ls, Storage.setItem ls key value) w in
      let '(r, w', rest) := perform (k outcome) w1 in
      (r, w', DidSetItem key value outcome :: rest)
  | RemoveItem key k =>
      let '(outcome, w1) :=
        Eff.storage_write (λ ls, Storage.removeItem ls key) w in
      let '(r, w', rest) := perform (k outcome) w1 in
      (r, w', DidRemoveItem key outcome :: rest)
  | Call hand c k =>
      let '(r, w', rest) := perform k (snd (Eff.emit hand c w)) in
      (r, w', DidCall hand c (window w) :: rest)
  end.

Definition saveSecret (tableAddress : string) (playerAddress : option string)
    (handNumber : N) (secret : string) : prog unit :=
  ReadWindow (λ w,
    match getSecretStorageKey tableAddress playerAddress handNumber, w with
    | Some key, Some _ =>
        if JS.truthy secret
        then SetItem key secret swallowed
        else RemoveItem key swallowed
    | _, _ => Ret tt
    end).

Definition generateSecret (e : entropy) : prog string :=
  ReadWindow (λ w,
    match w with
    | None => Raise "ReferenceError"
    | Some _ => Ret (randomSecret e)
    end).

Definition handleRequestCards (e : entropy) (tableAddress : string)
    (playerAddress : option string) (handNumber : N) : prog unit :=
  bind (generateSecret e) (λ newSecret,
  bind (saveSecret tableAddress playerAddress handNumber newSecret) (λ _,
  match hashSecretToBytes newSecret with
  | None => Raise "Failed to generate secret hash"
  | Some hashBytes =>
      Call handNumber (ConsoleLog handNumber (N.of_nat (String.length newSecret)))
        (Call handNumber (SubmitCommit tableAddress hashBytes) (Ret tt))
  end)).

End Steps.

(** ** What the panel is given *)

Module SeatInfo.
Record t := { player : option string; sittingOut : bool }.
End SeatInfo.

Module ActionOn.
Record t := { seatIndex : nat; playerAddress : option string; deadline : option Z }.
End ActionOn.

Module GameState.
Record t := { phase : N; actionOn : option ActionOn.t }.
End GameState.

Module TableState.
Record t := { handNumber : N; dealerSeat : nat }.
End TableState.

Record LifecyclePanelProps := {
  tableAddress : string;
  gameState : GameState.t;
  seats : list (option SeatInfo.t);
  playerSeat : option nat;
  tableState : option TableState.t;
  pendingLeave : bool;
  isAdmin : bool;
  isAdminOnlyStart : bool;
  isPaused : bool;
}.

(** ** What the panel keeps between renders *)

Inductive status_message :=
| Accepting                     (* "Accepting your cards..." *)
| Success                       (* "Success! Refreshing..." *)
| Failure (message : string).

(** The dependencies of the memo of the stored secret. *)
Definition memo_deps : Type := string * option string * N.

(** The dependencies of the auto-reveal effect: phase, stored secret,
    position in the hand, whether the player has revealed, hand number. *)
Definition effect_deps : Type := N * string * Z * bool * N.

(** What the callback of the pending [setTimeout] closes over. *)
Record timeout := { timeout_table : string; timeout_secret : string }.

(** A call of [runLifecycleAction] that is suspended at one of its two
    [await]s. *)
Inductive suspended :=
| AwaitAction (name : action_name)
| AwaitRefresh (name : action_name).

Record PanelState := {
  status : option status_message;
  activeAction : option action_name;
  commitStatus : list bool;
  revealStatus : list bool;
  playersInHand : list nat;
  autoRevealTriggeredRef : N;
  storedSecretMemo : option (memo_deps * string);
  autoRevealDeps : option effect_deps;
  autoRevealTimeout : option timeout;
  inFlight : list suspended;
}.

Definition initialState : PanelState :=
  {| status := None; activeAction := None;
     commitStatus := []; revealStatus := []; playersInHand := [];
     autoRevealTriggeredRef := 0;
     storedSecretMemo := None; autoRevealDeps := None;
     autoRevealTimeout := None; inFlight := [] |}.

Definition setStatus (v : option status_message) (st : PanelState) : PanelState :=
  {| status := v; activeAction := activeAction st;
     commitStatus := commitStatus st; revealStatus := revealStatus st;
     playersInHand := playersInHand st;
     autoRevealTriggeredRef := autoRevealTriggeredRef st;
     storedSecretMemo := storedSecretMemo st; autoRevealDeps := autoRevealDeps st;
     autoRevealTimeout := autoRevealTimeout st; inFlight := inFlight st |}.

Definition setActiveAction (v : option action_name) (st : PanelState) : PanelState :=
  {| status := status st; activeAction := v;
     commitStatus := commitStatus st; revealStatus := revealStatus st;
     playersInHand := playersInHand st;
     autoRevealTriggeredRef := autoRevealTriggeredRef st;
     storedSecretMemo := storedSecretMemo st; autoRevealDeps := autoRevealDeps st;
     autoRevealTimeout := autoRevealTimeout st; inFlight := inFlight st |}.

(** [setCommitStatus], [setRevealStatus] and [setPlayersInHand] in one batch. *)
Definition setSnapshot (commits reveals : list bool) (players : list nat)
    (st : PanelState) : PanelState :=
  {| status := status st; activeAction := activeAction st;
     commitStatus := commits; revealStatus := reveals;
     playersInHand := players;
     autoRevealTriggeredRef := autoRevealTriggeredRef st;
     storedSecretMemo := storedSecretMemo st; autoRevealDeps := autoRevealDeps st;
     autoRevealTimeout := autoRevealTimeout st; inFlight := inFlight st |}.

Definition setTriggeredRef (v : N) (st : PanelState) : PanelState :=
  {| status := status st; activeAction := activeAction st;
     commitStatus := commitStatus st; revealStatus := revealStatus st;
     playersInHand := playersInHand st;
     autoRevealTriggeredRef := v;
     storedSecretMemo := storedSecretMemo st; autoRevealDeps := autoRevealDeps st;
     autoRevealTimeout := autoRevealTimeout st; inFlight := inFlight st |}.

Definition setMemo (v : option (memo_deps * string)) (st : PanelState) : PanelState :=
  {| status := status st; activeAction := activeAction st;
     commitStatus := commitStatus st; revealStatus := revealStatus st;
     playersInHand := playersInHand st;
     autoRevealTriggeredRef := autoRevealTriggeredRef st;
     storedSecretMemo := v; autoRevealDeps := autoRevealDeps st;
     autoRevealTimeout := autoRevealTimeout st; inFlight := inFlight st |}.

Definition setDeps (v : option effect_deps) (st : PanelState) : PanelState :=
  {| status := status st; activeAction := activeAction st;
     commitStatus := commitStatus st; revealStatus := revealStatus st;
     playersInHand := playersInHand st;
     autoRevealTriggeredRef := autoRevealTriggeredRef st;
     storedSecretMemo := storedSecretMemo st; autoRevealDeps := v;
     autoRevealTimeout := autoRevealTimeout st; inFlight := inFlight st |}.

Definition setTimeout (v : option timeout) (st : PanelState) : PanelState :=
  {| status := status st; activeAction := activeAction st;
     commitStatus := commitStatus st; revealStatus := revealStatus st;
     playersInHand := playersInHand st;
     autoRevealTriggeredRef := autoRevealTriggeredRef st;
     storedSecretMemo := storedSecretMemo st; autoRevealDeps := autoRevealDeps st;
     autoRevealTimeout := v; inFlight := inFlight st |}.

Definition setInFlight (v : list suspended) (st : PanelState) : PanelState :=
  {| status := status st; activeAction := activeAction st;
     commitStatus := commitStatus st; revealStatus := revealStatus st;
     playersInHand := playersInHand st;
     autoRevealTriggeredRef := autoRevealTriggeredRef st;
     storedSecretMemo := storedSecretMemo st; autoRevealDeps := autoRevealDeps st;
     autoRevealTimeout := autoRevealTimeout st; inFlight := v |}.

(** ** What one render computes *)

Definition seatOf (p : LifecyclePanelProps) : option SeatInfo.t :=
  match playerSeat p with
  | None => None
  | Some i => match seats p !! i with Some (Some seat) => Some seat | _ => None end
  end.

Definition playerAddress (p : LifecyclePanelProps) : option string :=
  match seatOf p with Some seat => SeatInfo.player seat | None => None end.

Definition handNumber (p : LifecyclePanelProps) : N :=
  match tableState p with Some ts => TableState.handNumber ts | None => 0 end.

Definition phase (p : LifecyclePanelProps) : N := GameState.phase (gameState p).

(** The value the memo holds; the render fills the memo before anything
    reads it. *)
Definition storedSecret (st : PanelState) : string :=
  match storedSecretMemo st with Some (_, v) => v | None => "" end.

Definition playerHandIdx (p : LifecyclePanelProps) (st : PanelState) : Z :=
  match playerSeat p with
  | None => (-1)%Z
  | Some seat => JS.indexOf (playersInHand st) seat
  end.

Definition hasCommitted (p : LifecyclePanelProps) (st : PanelState) : bool :=
  (0 <=? playerHandIdx p st)%Z && JS.at_true (commitStatus st) (playerHandIdx p st).

Definition hasRevealed (p : LifecyclePanelProps) (st : PanelState) : bool :=
  (0 <=? playerHandIdx p st)%Z && JS.at_true (revealStatus st) (playerHandIdx p st).

Definition isNull {A} (o : option A) : bool :=
  match o with None => true | Some _ => false end.

Definition isActionOnPlayer (p : LifecyclePanelProps) : bool :=
  match playerSeat p, playerAddress p, GameState.actionOn (gameState p) with
  | Some seat, Some address, Some on =>
      JS.truthy address
      && Nat.eqb (ActionOn.seatIndex on) seat
      && match ActionOn.playerAddress on with
         | Some other => String.eqb (JS.toLowerCase other) (JS.toLowerCase address)
         | None => false
         end
  | _, _, _ => false
  end.

(** [s && !s.sittingOut] for one entry of [seats]. *)
Definition isActiveSeat (s : option SeatInfo.t) : bool :=
  match s with Some seat => negb (SeatInfo.sittingOut seat) | None => false end.

Definition activeSeats (p : LifecyclePanelProps) : nat :=
  length (List.filter isActiveSeat (seats p)).

Definition isSeatedPlayer (p : LifecyclePanelProps) : bool := negb (isNull (seatOf p)).

Definition isActivePlayer (p : LifecyclePanelProps) : bool := isActiveSeat (seatOf p).

Definition canStartHand (p : LifecyclePanelProps) : bool :=
  if isAdminOnlyStart p then isAdmin p else isActionOnPlayer p || isAdmin p.

Definition startDisabled (p : LifecyclePanelProps) (st : PanelState) : bool :=
  negb (phase p =? GAME_PHASES.WAITING)
  || isPaused p
  || (activeSeats p <? 2)%nat
  || negb (canStartHand p)
  || negb (isNull (activeAction st)).

Definition requestCardsDisabled (p : LifecyclePanelProps) (st : PanelState) : bool :=
  negb (phase p =? GAME_PHASES.COMMIT)
  || negb (isActivePlayer p)
  || hasCommitted p st
  || negb (isNull (activeAction st)).

(** [l.filter(Boolean).length]. *)
Definition countTrue (l : list bool) : nat := length (List.filter id l).

Definition committedCount (st : PanelState) : nat := countTrue (commitStatus st).
Definition revealedCount (st : PanelState) : nat := countTrue (revealStatus st).

(** [a || b] on numbers: [b] when [a] is 0. *)
Definition orElse (a b : nat) : nat := if Nat.eqb a 0 then b else a.

Definition totalPlayers (st : PanelState) : nat :=
  orElse (orElse (length (playersInHand st)) (committedCount st)) 1.

(** What the "Accept Cards" card shows in the REVEAL phase. *)
Inductive accept_cards :=
| Confirmed        (* "Confirmed! Waiting for other players..." *)
| Signing          (* "Accepting cards... Please sign the transaction" *)
| Preparing        (* "Preparing to accept cards..." *)
| SecretNotFound.  (* "Secret not found. You may need to refresh and wait
                      for next hand." *)

Definition acceptCardsCard (p : LifecyclePanelProps) (st : PanelState)
  : option accept_cards :=
  if phase p =? GAME_PHASES.REVEAL then
    Some (if hasRevealed p st then Confirmed
          else if bool_decide (activeAction st = Some reveal) then Signing
          else if JS.truthy (storedSecret st) then Preparing
          else SecretNotFound)
  else None.

(** The buttons of the panel. *)
Inductive button :=
| StartHandButton
| RequestCardsButton
| SitToggleButton
| LeaveTableButton
| LeaveAfterHandButton.

(** Whether the render puts the button on the page. *)
Definition rendered (b : button) (p : LifecyclePanelProps) (st : PanelState) : bool :=
  match b with
  | StartHandButton => phase p =? GAME_PHASES.WAITING
  | RequestCardsButton => (phase p =? GAME_PHASES.COMMIT) && negb (hasCommitted p st)
  | SitToggleButton => isSeatedPlayer p
  | LeaveTableButton => isSeatedPlayer p && (phase p =? GAME_PHASES.WAITING)
  | LeaveAfterHandButton => isSeatedPlayer p && negb (phase p =? GAME_PHASES.WAITING)
  end.

(** Its [disabled] attribute. *)
Definition disabled (b : button) (p : LifecyclePanelProps) (st : PanelState) : bool :=
  match b with
  | StartHandButton => startDisabled p st
  | RequestCardsButton => requestCardsDisabled p st
  | SitToggleButton | LeaveTableButton | LeaveAfterHandButton =>
      negb (isNull (activeAction st))
  end.

(** The tag its click gives to [runLifecycleAction]. *)
Definition actionNameOf (b : button) : action_name :=
  match b with
  | StartHandButton => start
  | RequestCardsButton => commit
  | SitToggleButton => sitout
  | LeaveTableButton | LeaveAfterHandButton => leave
  end.

(** The action its click gives to [runLifecycleAction], up to the promise
    of the collaborator. *)
Definition actionOf (b : button) (e : entropy) (p : LifecyclePanelProps) : Eff.M unit :=
  match b with
  | StartHandButton => Eff.emit (handNumber p) (StartHand (tableAddress p))
  | RequestCardsButton =>
      handleRequestCards e (tableAddress p) (playerAddress p) (handNumber p)
  | SitToggleButton =>
      if match seatOf p with Some seat => SeatInfo.sittingOut seat | None => false end
      then Eff.emit (handNumber p) (SitIn (tableAddress p))
      else Eff.emit (handNumber p) (SitOut (tableAddress p))
  | LeaveTableButton => Eff.emit (handNumber p) (LeaveTable (tableAddress p))
  | LeaveAfterHandButton =>
      if pendingLeave p
      then Eff.emit (handNumber p) (CancelLeaveAfterHand (tableAddress p))
      else Eff.emit (handNumber p) (LeaveAfterHand (tableAddress p))
  end.

(** ** The hooks *)

(** [useMemo(() => loadStoredSecret(...), [tableAddress, playerAddress,
    handNumber])]: the store is read on the first render and whenever one of
    the three changes, and not otherwise. *)
Definition useMemoStoredSecret (w : Window) (p : LifecyclePanelProps)
    (st : PanelState) : PanelState :=
  let deps : memo_deps := (tableAddress p, playerAddress p, handNumber p) in
  let fresh :=
    setMemo (Some (deps, loadStoredSecret w (tableAddress p) (playerAddress p)
                           (handNumber p))) st in
  match storedSecretMemo st with
  | Some (old, _) => if bool_decide (old = deps) then st else fresh
  | None => fresh
  end.

Definition autoRevealGuard (p : LifecyclePanelProps) (st : PanelState) : bool :=
  (phase p =? GAME_PHASES.REVEAL)
  && JS.truthy (storedSecret st)
  && (0 <=? playerHandIdx p st)%Z
  && negb (hasRevealed p st)
  && isNull (activeAction st)
  && negb (autoRevealTriggeredRef st =? handNumber p).

Definition autoRevealDepsOf (p : LifecyclePanelProps) (st : PanelState) : effect_deps :=
  (phase p, storedSecret st, playerHandIdx p st, hasRevealed p st, handNumber p).

(** The body of the auto-reveal effect: when the guard passes, the ref takes
    the hand number at once and a timeout of 500 ms is set. *)
Definition autoRevealBody (p : LifecyclePanelProps) (st : PanelState) : PanelState :=
  if autoRevealGuard p st
  then setTimeout (Some {| timeout_table := tableAddress p;
                           timeout_secret := storedSecret st |})
         (setTriggeredRef (handNumber p) st)
  else st.

(** The effect as React runs it after a render: nothing when the
    dependencies are those of the last run; otherwise the cleanup of the
    last run ([clearTimeout]) and then the body. *)
Definition useEffectAutoReveal (p : LifecyclePanelProps) (st : PanelState) : PanelState :=
  let deps := autoRevealDepsOf p st in
  if bool_decide (autoRevealDeps st = Some deps) then st
  else setDeps (Some deps) (autoRevealBody p (setTimeout None st)).

Definition render (w : Window) (p : LifecyclePanelProps) (st : PanelState) : PanelState :=
  useEffectAutoReveal p (useMemoStoredSecret w p st).

(** ** The panel and the world together *)

Record System := {
  world : World;
  props : LifecyclePanelProps;
  panel : PanelState;
}.

Definition rerender (s : System) : System :=
  {| world := world s; props := props s;
     panel := render (window (world s)) (props s) (panel s) |}.

Definition mount (w : Window) (p : LifecyclePanelProps) : System :=
  rerender {| world := {| window := w; trace := [] |}; props := p;
              panel := initialState |}.

Definition withPanel (f : PanelState → PanelState) (s : System) : System :=
  {| world := world s; props := props s; panel := f (panel s) |}.

Definition emitCall (c : call) (s : System) : System :=
  {| world := snd (Eff.emit (handNumber (props s)) c (world s));
     props := props s; panel := panel s |}.

(** The [catch] and [finally] blocks of [runLifecycleAction]. *)
Definition actionFailed (actionName : action_name) (message : string)
    (s : System) : System :=
  withPanel (setActiveAction None)
    (withPanel (setStatus (Some (Failure message)))
       (emitCall (ConsoleError actionName message) s)).

(** [runLifecycleAction(action, actionName)] up to its first [await]: the
    tag is stored, the status cleared and [action()] called.  Nothing looks
    at the tag already stored.  When [action()] raised before it reached the
    collaborator, the [catch] and [finally] blocks run; otherwise the call
    stays suspended until the promise settles. *)
Definition runLifecycleAction (action : Eff.M unit) (actionName : action_name)
    (s : System) : System :=
  let s1 := withPanel (setStatus None)
              (withPanel (setActiveAction (Some actionName)) s) in
  match action (world s1) with
  | (Ok _, w) =>
      {| world := w; props := props s1;
         panel := setInFlight (inFlight (panel s1) ++ [AwaitAction actionName])
                    (panel s1) |}
  | (Throw message, w) =>
      actionFailed actionName message
        {| world := w; props := props s1; panel := panel s1 |}
  end.

(** The rest of [runLifecycleAction] once the promise it awaits settles:
    after the action, the success status and [onRefresh()]; after the
    refresh, or after any failure, the tag is cleared. *)
Definition settle (i : nat) (outcome : result unit) (s : System) : System :=
  match inFlight (panel s) !! i with
  | None => s
  | Some (AwaitAction name) =>
      match outcome with
      | Ok _ =>
          withPanel (setInFlight (<[i := AwaitRefresh name]> (inFlight (panel s))))
            (emitCall OnRefresh (withPanel (setStatus (Some Success)) s))
      | Throw message =>
          actionFailed name message
            (withPanel (setInFlight (delete i (inFlight (panel s)))) s)
      end
  | Some (AwaitRefresh name) =>
      match outcome with
      | Ok _ =>
          withPanel (setActiveAction None)
            (withPanel (setInFlight (delete i (inFlight (panel s)))) s)
      | Throw message =>
          actionFailed name message
            (withPanel (setInFlight (delete i (inFlight (panel s)))) s)
      end
  end.

(** A click: the browser delivers it when the button is on the page and not
    disabled. *)
Definition click (b : button) (e : entropy) (s : System) : System :=
  if rendered b (props s) (panel s) && negb (disabled b (props s) (panel s))
  then runLifecycleAction (actionOf b e (props s)) (actionNameOf b) s
  else s.

(** The callback of the timeout of the auto-reveal effect. *)
Definition timeoutFires (s : System) : System :=
  match autoRevealTimeout (panel s) with
  | None => s
  | Some t =>
      runLifecycleAction
        (Eff.emit (handNumber (props s))
           (RevealSecret (timeout_table t) (JS.encode (timeout_secret t))))
        reveal
        (withPanel (setStatus (Some Accepting)) (withPanel (setTimeout None) s))
  end.

(** [Promise.all] of three promises that have settled. *)
Definition promiseAll {A B C} (a : result A) (b : result B) (c : result C)
  : result (A * B * C) :=
  match a, b, c with
  | Ok x, Ok y, Ok z => Ok (x, y, z)
  | Throw e, _, _ => Throw e
  | _, Throw e, _ => Throw e
  | _, _, Throw e => Throw e
  end.

(** [fetchStatus], given how the three queries settled.  The result is how
    the promise of [fetchStatus] itself settles. *)
Definition fetchStatus (commits reveals : result (list bool))
    (players : result (list nat)) (s : System) : result unit * System :=
  match promiseAll commits reveals players with
  | Ok (c, r, pl) => (Ok tt, withPanel (setSnapshot c r pl) s)
  | Throw _ =>
      (Ok tt, emitCall (ConsoleWarn "Failed to fetch commit/reveal status:") s)
  end.

(** What can happen to a mounted panel. *)
Inductive event :=
| NewProps (p : LifecyclePanelProps)
| Clicked (b : button) (e : entropy)
| TimeoutElapsed
| Settled (i : nat) (outcome : result unit)
| Polled (commits reveals : result (list bool)) (players : result (list nat)).

(** What the event itself does. *)
Definition handle (s : System) (ev : event) : System :=
  match ev with
  | NewProps p => {| world := world s; props := p; panel := panel s |}
  | Clicked b e => click b e s
  | TimeoutElapsed => timeoutFires s
  | Settled i outcome => settle i outcome s
  | Polled commits reveals players => snd (fetchStatus commits reveals players s)
  end.

(** Each event is followed by the render it causes. *)
Definition step (s : System) (ev : event) : System := rerender (handle s ev).

Definition run (s : System) (evs : list event) : System := fold_left step evs s.

(** The entry is a call of the collaborator's reveal action. *)
Definition isReveal (x : entry) : bool :=
  match made x with RevealSecret _ _ => true | _ => false end.

(** How often the reveal action has been called. *)
Definition reveals (s : System) : nat :=
  length (List.filter isReveal (trace (world s))).



(** The calls to the collaborator's actions, the refresh and the console
    apart. *)
Definition isAction (x : entry) : bool :=
  match made x with
  | OnRefresh | ConsoleLog _ _ | ConsoleWarn _ | ConsoleError _ _ => false
  | _ => true
  end.

Definition actionCalls (s : System) : list call :=
  map made (List.filter isAction (trace (world s))).

(** ** Vocabulary of the properties *)

(** The store took the write of [secret] under the key of (table, player,
    hand): there is a key, there is a window, and [setItem] did not raise. *)
Definition writeSucceeded (w : World) (table : string) (player : option string)
    (hand : N) (secret : string) : Prop :=
  ∃ key ls ls',
    getSecretStorageKey table player hand = Some key
    ∧ window w = Some ls
    ∧ Storage.setItem ls key secret = Ok ls'.

(** The same player identity up to the case of its letters. *)
Definition sameIdentity (p p' : option string) : Prop :=
  JS.toLowerCase <$> p = JS.toLowerCase <$> p'.

Definition failed {A} (r : result A) : Prop :=
  match r with Throw _ => True | Ok _ => False end.


Definition noReveals (l : list entry) : Prop := Forall (λ x, isReveal x = false) l.

(** The hand number the auto-reveal effect last ran with. *)
Definition lastHand (st : PanelState) : N :=
  match autoRevealDeps st with Some d => snd d | None => 0 end.

(** The stored secret the auto-reveal effect last ran with. *)
Definition lastSecret (st : PanelState) : string :=
  match autoRevealDeps st with Some d => snd (fst (fst (fst d))) | None => "" end.




(** The hand number stays [h] along the events. *)
Definition handStays (h : N) (evs : list event) : Prop :=
  Forall (λ ev, match ev with NewProps p => handNumber p = h | _ => True end) evs.

(** What holds of a mounted panel after every render, whatever the hand
    numbers were: the effect has run for the hand shown, and a pending
    timeout belongs to it. *)
Record settled_inv (s : System) : Prop := {
  settled_last : lastHand (panel s) = handNumber (props s);
  settled_ref : is_Some (autoRevealTimeout (panel s)) →
                autoRevealTriggeredRef (panel s) = handNumber (props s);
}.

(** How many reveals the panel can still make while the hand number stays:
    one for a pending timeout, one when the marker is not yet the hand
    number, none otherwise. *)
Definition revealsLeft (s : System) : nat :=
  match autoRevealTimeout (panel s) with
  | Some _ => 1
  | None => if autoRevealTriggeredRef (panel s) =? handNumber (props s) then 0 else 1
  end.

(** What holds of a mounted panel after every render: a timeout is pending
    only for a stored secret that is not empty, the one the effect last
    saw. *)
Definition secret_inv (st : PanelState) : Prop :=
  match autoRevealDeps st with
  | Some _ =>
      lastSecret st = storedSecret st
      ∧ (is_Some (autoRevealTimeout st) → JS.truthy (storedSecret st) = true)
  | None => autoRevealTimeout st = None
  end.

(** The stored secret is empty now and after each of the events. *)
Fixpoint secretAbsentAlong (s : System) (evs : list event) : Prop :=
  storedSecret (panel s) = ""
  ∧ match evs with
    | [] => True
    | ev :: rest => secretAbsentAlong (step s ev) rest
    end.

(** ** The rest of what the panel shows *)

(** [Number.MAX_SAFE_INTEGER]. *)
Definition MAX_SAFE_INTEGER : Z := 2 ^ 53 - 1.

(** The timestamps [formatDeadline] is modelled on: whole seconds, the
    current time from 0 to [MAX_SAFE_INTEGER] and the deadline of a size up
    to [MAX_SAFE_INTEGER].  On these the numbers of the source are exact:
    the difference, its quotient by 60 rounded down and its remainder are
    whole numbers below 2^53, and they are printed in decimal digits.
    Beyond them a JavaScript number rounds, and the definition below, which
    computes on [Z], is not the source any more. *)
Definition safeTimestamps (now : Z) (deadline : option Z) : Prop :=
  (0 ≤ now ≤ MAX_SAFE_INTEGER)%Z
  ∧ ∀ d, deadline = Some d → (- MAX_SAFE_INTEGER ≤ d ≤ MAX_SAFE_INTEGER)%Z.

(** [formatDeadline(deadline)], with [now] for
    [Math.floor(Date.now() / 1000)], on [safeTimestamps]. *)
Definition formatDeadline (now : Z) (deadline : option Z) : option string :=
  match deadline with
  | None => None
  | Some d =>
      if (d =? 0)%Z || (d <=? 0)%Z then None
      else
        let remaining := (d - now)%Z in
        if (remaining <=? 0)%Z then Some "Expired"
        else
          let mins := (remaining `div` 60)%Z in
          let secs := (remaining `mod` 60)%Z in
          if (0 <? mins)%Z
          then Some (pretty mins +:+ "m " +:+ pretty secs +:+ "s")
          else Some (pretty secs +:+ "s")
  end.

(** [gameState.actionOn?.deadline] formatted. *)
Definition deadlineText (now : Z) (p : LifecyclePanelProps) : option string :=
  formatDeadline now
    (match GameState.actionOn (gameState p) with
     | Some on => ActionOn.deadline on
     | None => None
     end).

Definition startHint (p : LifecyclePanelProps) : option string :=
  if negb (phase p =? GAME_PHASES.WAITING) then None
  else if isPaused p then Some "Table is paused."
  else if (activeSeats p <? 2)%nat then Some "Need at least 2 active players."
  else if isAdminOnlyStart p && negb (isAdmin p) then Some "Only admin can start hands."
  else if negb (isActionOnPlayer p) && negb (isAdmin p)
       then Some "Waiting for the acting player to start."
  else None.

(** ** The seat view of the table: [PokerTable] *)
Module PokerTable.

(** [getHoleCardsForSeat(seatIdx)], over the props it closes over. *)
Definition getHoleCardsForSeat (gameState : option GameState.t)
    (playersInHand : list nat) (holeCards : list (list nat)) (seatIdx : nat)
  : list nat :=
  match gameState with
  | None => []
  | Some gs =>
      if GameState.phase gs <? GAME_PHASES.PREFLOP then []
      else
        let handIdx := JS.indexOf playersInHand seatIdx in
        if (handIdx =? -1)%Z || (Z.of_nat (length holeCards) <=? handIdx)%Z then []
        else match holeCards !! Z.to_nat handIdx with
             | Some cards => cards
             | None => []
             end
  end.

(** The pip positions of the number cards, in percent of the card face. *)
Definition pipLayouts (pipCount : Z) : option (list (Z * Z)) :=
  match pipCount with
  | 2 => Some [(50, 20); (50, 80)]
  | 3 => Some [(50, 20); (50, 50); (50, 80)]
  | 4 => Some [(30, 20); (70, 20); (30, 80); (70, 80)]
  | 5 => Some [(30, 20); (70, 20); (50, 50); (30, 80); (70, 80)]
  | 6 => Some [(30, 20); (70, 20); (30, 50); (70, 50); (30, 80); (70, 80)]
  | 7 => Some [(30, 20); (70, 20); (50, 35); (30, 50); (70, 50); (30, 80); (70, 80)]
  | 8 => Some [(30, 20); (70, 20); (50, 35); (30, 50); (70, 50); (50, 65);
               (30, 80); (70, 80)]
  | 9 => Some [(30, 16); (70, 16); (30, 38); (70, 38); (50, 50); (30, 62);
               (70, 62); (30, 84); (70, 84)]
  | 10 => Some [(30, 16); (70, 16); (50, 28); (30, 40); (70, 40); (30, 60);
                (70, 60); (50, 72); (30, 84); (70, 84)]
  | _ => None
  end%Z.

(** One pip as [renderPips] draws it: where, and whether turned upside
    down. *)
Record pip := { left : Z; top : Z; rotated : bool }.

(** [renderPips()], over the three values it closes over; the result is
    [null] for face cards and aces. *)
Definition renderPips (isFaceCard isAce : bool) (pipCount : Z) : option (list pip) :=
  if isFaceCard || isAce then None
  else
    let positions := default [] (pipLayouts pipCount) in
    Some (map (λ pos, {| left := fst pos; top := snd pos;
                         rotated := (50 <? snd pos)%Z |}) positions).

End PokerTable.

(** ** More vocabulary *)

(** Reads a hexadecimal digit back; the inverse of [JS.hex_digit], which the
    source has no use for and the properties need to say that the text of a
    secret loses nothing of the random bytes. *)
Definition unhex_digit (c : ascii) : N :=
  let n := JS.code c in if n <? 58 then n - 48 else n - 87.

Fixpoint hex_parse (s : string) : list N :=
  match s with
  | String hi (String lo rest) => (16 * unhex_digit hi + unhex_digit lo) :: hex_parse rest
  | _ => []
  end.

(** [k] is the first position of [x] in [l]. *)
Definition firstIndex (l : list nat) (x : nat) (k : nat) : Prop :=
  l !! k = Some x ∧ ∀ j, (j < k)%nat → l !! j ≠ Some x.

(** The dependencies of the memo, as the panel shows them. *)
Definition memoKey (p : LifecyclePanelProps) : memo_deps :=
  (tableAddress p, playerAddress p, handNumber p).

(** A pending timeout belongs to a run of the effect in the REVEAL phase,
    for a participant not marked as revealed, and closes over the stored
    secret of that run, which is not empty. *)
Definition timeout_ok (st : PanelState) : Prop :=
  ∀ t, autoRevealTimeout st = Some t →
    ∃ idx h,
      autoRevealDeps st = Some (GAME_PHASES.REVEAL, timeout_secret t, idx, false, h)
      ∧ (0 ≤ idx)%Z
      ∧ JS.truthy (timeout_secret t) = true.

(** The tag of the action slot is set only while a call of
    [runLifecycleAction] is suspended. *)
Definition slot_inv (st : PanelState) : Prop :=
  activeAction st ≠ None → inFlight st ≠ [].

(** What must hold for an event to make a given call.  Each kind of call
    has the one kind of event that makes it: an action of the collaborator
    the click on its button, the reveal the timeout, the refresh a
    fulfilled action.  Each action made by a click has its phase and its
    conditions, among them that the tag of the action slot is clear
    ([activeAction] is [null]); an action suspended while the tag is clear
    does not count. *)
Definition permitted (s : System) (ev : event) (x : entry) : Prop :=
  let p := props s in
  let st := panel s in
  at_hand x = handNumber p
  ∧ match made x with
    | StartHand t =>
        (∃ e, ev = Clicked StartHandButton e)
        ∧ t = tableAddress p
        ∧ phase p = GAME_PHASES.WAITING ∧ isPaused p = false
        ∧ (2 ≤ activeSeats p)%nat ∧ canStartHand p = true
        ∧ activeAction st = None
    | SubmitCommit t C =>
        (∃ e, ev = Clicked RequestCardsButton e)
        ∧ t = tableAddress p
        ∧ phase p = GAME_PHASES.COMMIT ∧ isActivePlayer p = true
        ∧ hasCommitted p st = false ∧ activeAction st = None
        ∧ length C = 32%nat
    | RevealSecret t _ =>
        ev = TimeoutElapsed
        ∧ ∃ pending, autoRevealTimeout st = Some pending
                     ∧ t = timeout_table pending
    | LeaveTable t =>
        (∃ e, ev = Clicked LeaveTableButton e)
        ∧ t = tableAddress p
        ∧ phase p = GAME_PHASES.WAITING ∧ isSeatedPlayer p = true
        ∧ activeAction st = None
    | LeaveAfterHand t =>
        (∃ e, ev = Clicked LeaveAfterHandButton e)
        ∧ t = tableAddress p
        ∧ phase p ≠ GAME_PHASES.WAITING ∧ isSeatedPlayer p = true
        ∧ pendingLeave p = false ∧ activeAction st = None
    | CancelLeaveAfterHand t =>
        (∃ e, ev = Clicked LeaveAfterHandButton e)
        ∧ t = tableAddress p
        ∧ phase p ≠ GAME_PHASES.WAITING ∧ isSeatedPlayer p = true
        ∧ pendingLeave p = true ∧ activeAction st = None
    | SitOut t =>
        (∃ e, ev = Clicked SitToggleButton e)
        ∧ t = tableAddress p ∧ isActivePlayer p = true ∧ activeAction st = None
    | SitIn t =>
        (∃ e, ev = Clicked SitToggleButton e)
        ∧ t = tableAddress p ∧ isSeatedPlayer p = true ∧ isActivePlayer p = false
        ∧ activeAction st = None
    | OnRefresh =>
        ∃ i name, ev = Settled i (Ok tt)
                  ∧ inFlight st !! i = Some (AwaitAction name)
    | ConsoleLog _ _ => ∃ e, ev = Clicked RequestCardsButton e
    | ConsoleWarn _ => ∃ c r pl, ev = Polled c r pl
    | ConsoleError name _ =>
        (∃ e, ev = Clicked RequestCardsButton e ∧ name = commit)
        ∨ (∃ i message waiting,
             ev = Settled i (Throw message)
             ∧ inFlight st !! i = Some waiting
             ∧ name = match waiting with
                      | AwaitAction n | AwaitRefresh n => n
                      end)
    end.

(** The entries an event adds to the trace, before the render. *)
Definition newEntries (s : System) (ev : event) : list entry :=
  drop (length (trace (world s))) (trace (world (handle s ev))).

(** The key of the memo of the stored secret stays what the panel shows. *)
Definition keyStays (p : LifecyclePanelProps) (evs : list event) : Prop :=
  Forall (λ ev, match ev with
                | NewProps p' =>
                    tableAddress p' = tableAddress p
                    ∧ playerAddress p' = playerAddress p
                    ∧ handNumber p' = handNumber p
                | _ => True
                end) evs.

(** The payloads of the reveal calls in a trace. *)
Definition revealPayloads (tr : list entry) : list (list N) :=
  omap (λ x, match made x with RevealSecret _ b => Some b | _ => None end) tr.

(** ** A table to try things on

    One seated player at seat 0 of table ["0xt"]; hand 5 unless said
    otherwise. *)
Module Sample.

Definition seat : SeatInfo.t :=
  {| SeatInfo.player := Some "0xP1"; SeatInfo.sittingOut := false |}.

Definition propsAt (phase hand : N) : LifecyclePanelProps :=
  {| tableAddress := "0xt";
     gameState := {| GameState.phase := phase; GameState.actionOn := None |};
     seats := [Some seat; None; None; None; None];
     playerSeat := Some 0%nat;
     tableState := Some {| TableState.handNumber := hand;
                           TableState.dealerSeat := 0 |};
     pendingLeave := false; isAdmin := false;
     isAdminOnlyStart := false; isPaused := false |}.


(** A store that holds the secret ["5e"] for hands 0 and 5. *)
Definition store : localStorage :=
  {| Storage.items := {[ "holdem_secret_0xt_0xp1_5" := "5e";
                         "holdem_secret_0xt_0xp1_0" := "5e" ]};
     Storage.accessible := true; Storage.quota := 4096 |}.

Definition emptyStore : localStorage :=
  {| Storage.items := ∅; Storage.accessible := true; Storage.quota := 4096 |}.

(** A poll: the player is the only participant, has committed, and has
    revealed or not. *)
Definition polled (revealed : bool) : event :=
  Polled (Ok [true]) (Ok [revealed]) (Ok [0%nat]).

Definition noEntropy : entropy := CryptoBytes (replicate 32 0).

End Sample.

(** * Properties *)

(** ** The hash *)

Example sha3_256_empty :
  JS.hex_join (Sha3.sha3_256 [])
  = "a7ffc6f8bf1ed76651c14756a061d662f580ff4de43b49fa82d80a4b80f8434a".
Proof. vm_compute. reflexivity. Qed.

Example sha3_256_abc :
  JS.hex_join (Sha3.sha3_256 (JS.encode "abc"))
  = "3a985da74fe225b2045c172d6bd390bd855f086e3e9d525b46bfe24511431532".
Proof. vm_compute. reflexivity. Qed.

(** More than one block of 136 bytes. *)
Example sha3_256_two_blocks :
  JS.hex_join (Sha3.sha3_256 (replicate 200 0xa3))
  = "79f38adec5c20307a98ef76e8324afbfd46cfd81b22e3973c65fa1bd9de31787".
Proof. vm_compute. reflexivity. Qed.

Lemma sha3_256_length data : length (Sha3.sha3_256 data) = 32%nat.
Proof. unfold Sha3.sha3_256. by rewrite length_map, length_seq. Qed.

Lemma sha3_256_bytes data : Forall (λ b, b < 256) (Sha3.sha3_256 data).
Proof.
  unfold Sha3.sha3_256. apply Forall_map, Forall_forall. intros k _.
  unfold Sha3.state_byte.
  change 255 with (N.ones 8). rewrite N.land_ones.
  apply N.mod_upper_bound. done.
Qed.

Lemma truthy_spec s : JS.truthy s = true ↔ s ≠ "".
Proof. destruct s; simpl; split; congruence. Qed.

(** C7, counterexample: the empty secret has no commitment at all, so the
    function does not return the 32 bytes of SHA3-256 for every string. *)
Lemma hashSecretToBytes_empty :
  hashSecretToBytes "" = None
  ∧ hashSecretToBytes "" ≠ Some (Sha3.sha3_256 (JS.encode "")).
Proof. split; [reflexivity | discriminate]. Qed.

(** C7, amended: for every secret other than the empty string,
    [hashSecretToBytes] returns the SHA3-256 digest of the UTF-8 encoding of
    the text of the secret itself, 32 bytes long, and equal secrets give
    equal bytes; for the empty string it returns [null]. *)
Theorem hashSecretToBytes_spec (S : string) :
  S ≠ "" →
  hashSecretToBytes S = Some (Sha3.sha3_256 (JS.encode S))
  ∧ (∀ digest, hashSecretToBytes S = Some digest →
       length digest = 32%nat ∧ Forall (λ b, b < 256) digest)
  ∧ (∀ S', S' = S → hashSecretToBytes S' = hashSecretToBytes S)
  ∧ hashSecretToBytes "" = None.
Proof.
  intros HS. apply truthy_spec in HS.
  unfold hashSecretToBytes. rewrite HS. split_and!.
  - reflexivity.
  - intros digest [= <-]. split; [apply sha3_256_length | apply sha3_256_bytes].
  - intros S' ->. by rewrite HS.
  - reflexivity.
Qed.

Lemma hashSecretToBytes_spec_witness :
  "5e" ≠ ""
  ∧ hashSecretToBytes "5e" = Some (Sha3.sha3_256 (JS.encode "5e")).
Proof.
  split; [discriminate |].
  refine (proj1 (hashSecretToBytes_spec "5e" _)). discriminate.
Defined.

(** ** The progress denominator *)

(** C8: the denominator of the progress display is the length of the
    participant list, the committed count when that list is empty, and 1
    when both are zero; it is never zero. *)
Theorem totalPlayers_spec (st : PanelState) :
  totalPlayers st
  = match length (playersInHand st), committedCount st with
    | O, O => 1%nat
    | O, S c => S c
    | S n, _ => S n
    end
  ∧ (1 ≤ totalPlayers st)%nat
  ∧ (playersInHand st = [] → committedCount st = 0%nat → totalPlayers st = 1%nat).
Proof.
  unfold totalPlayers, orElse.
  destruct (playersInHand st) as [|seat rest]; simpl;
    destruct (committedCount st) as [|c]; simpl;
    split_and!; first [reflexivity | lia | discriminate | auto].
Qed.

Lemma totalPlayers_spec_witness :
  totalPlayers initialState = 1%nat
  ∧ totalPlayers (setSnapshot [true; false; true] [] [] initialState) = 2%nat
  ∧ totalPlayers (setSnapshot [true; false; false] [] [0; 1; 2]%nat initialState) = 3%nat.
Proof.
  split_and!.
  - refine (proj2 (proj2 (totalPlayers_spec initialState)) _ _); reflexivity.
  - reflexivity.
  - reflexivity.
Defined.

(** ** The status poll *)

Lemma promiseAll_failed {A B C} (a : result A) (b : result B) (c : result C) :
  failed a ∨ failed b ∨ failed c → failed (promiseAll a b c).
Proof. destruct a, b, c; simpl; tauto. Qed.

(** C6: one poll takes commit bits, reveal bits and participants as one
    snapshot.  When any of the three queries fails, none of the three cached
    vectors changes (the whole panel state stays as it was, also after the
    render that follows), and the promise of the poll is fulfilled all the
    same; when all three succeed, the three vectors are replaced together. *)
Theorem fetchStatus_all_or_nothing (commits reveals : result (list bool))
    (players : result (list nat)) (s : System) :
  fst (fetchStatus commits reveals players s) = Ok tt
  ∧ (failed commits ∨ failed reveals ∨ failed players →
       panel (snd (fetchStatus commits reveals players s)) = panel s
       ∧ (let s' := step s (Polled commits reveals players) in
          commitStatus (panel s') = commitStatus (panel s)
          ∧ revealStatus (panel s') = revealStatus (panel s)
          ∧ playersInHand (panel s') = playersInHand (panel s)))
  ∧ (∀ c r pl, commits = Ok c → reveals = Ok r → players = Ok pl →
       let st := panel (snd (fetchStatus commits reveals players s)) in
       commitStatus st = c ∧ revealStatus st = r ∧ playersInHand st = pl).
Proof.
  split_and!.
  - unfold fetchStatus. by destruct (promiseAll _ _ _) as [[[??]?]|?].
  - intros Hf. apply promiseAll_failed in Hf.
    assert (panel (snd (fetchStatus commits reveals players s)) = panel s) as Hp.
    { unfold fetchStatus. by destruct (promiseAll _ _ _). }
    split; [done |]. simpl. unfold rerender, render; simpl. rewrite Hp.
    unfold useEffectAutoReveal, autoRevealBody, useMemoStoredSecret.
    repeat (case_match; simpl); done.
  - intros c r pl -> -> ->. simpl. done.
Qed.

Lemma fetchStatus_all_or_nothing_witness :
  let s := mount None
             {| tableAddress := "0xt"; gameState := {| GameState.phase := 1;
                  GameState.actionOn := None |};
                seats := []; playerSeat := None; tableState := None;
                pendingLeave := false; isAdmin := false;
                isAdminOnlyStart := false; isPaused := false |} in
  let s1 := step s (Polled (Ok [true; false]) (Ok [false; false]) (Ok [0; 1]%nat)) in
  let s2 := step s1 (Polled (Ok [true; true]) (Throw "network") (Ok [0; 1; 2]%nat)) in
  commitStatus (panel s2) = [true; false]
  ∧ revealStatus (panel s2) = [false; false]
  ∧ playersInHand (panel s2) = [0; 1]%nat.
Proof.
  intros s s1 s2.
  refine (proj2 (proj1 (proj2 (fetchStatus_all_or_nothing
            (Ok [true; true]) (Throw "network") (Ok [0; 1; 2]%nat) s1)) _)).
  right; left; exact I.
Defined.

(** ** The secret store *)

Lemma toLowerCase_app a b :
  JS.toLowerCase (a +:+ b) = JS.toLowerCase a +:+ JS.toLowerCase b.
Proof. induction a as [|c a IH]; simpl; [done | by rewrite IH]. Qed.

Lemma truthy_toLowerCase a : JS.truthy (JS.toLowerCase a) = JS.truthy a.
Proof. by destruct a. Qed.

(** The key does not depend on the case of the letters of the player
    identity. *)
Lemma getSecretStorageKey_case table p p' hand :
  sameIdentity p p' →
  getSecretStorageKey table p hand = getSecretStorageKey table p' hand.
Proof.
  unfold sameIdentity, getSecretStorageKey.
  destruct p as [a|], p' as [b|]; simpl; try done.
  intros [= Hab].
  rewrite <- (truthy_toLowerCase a), <- (truthy_toLowerCase b), Hab.
  destruct (_ && _); [|done]. f_equal.
  rewrite !toLowerCase_app. by rewrite Hab.
Qed.

Lemma setItem_getItem ls ls' key value :
  Storage.setItem ls key value = Ok ls' →
  Storage.getItem ls' key = Ok (Some value).
Proof.
  unfold Storage.setItem, Storage.getItem.
  destruct (Storage.accessible ls); [|done].
  case_match; [|done]. intros [= <-]. simpl.
  by rewrite lookup_insert_eq.
Qed.

(** What [saveSecret] leaves behind when the store took the write. *)
Lemma saveSecret_written w table player hand secret key ls ls' :
  getSecretStorageKey table player hand = Some key →
  window w = Some ls →
  JS.truthy secret = true →
  Storage.setItem ls key secret = Ok ls' →
  saveSecret table player hand secret w
  = (Ok tt, {| window := Some ls'; trace := trace w |}).
Proof.
  intros Hk Hw Ht Hs. unfold saveSecret, Eff.bind, Eff.get_window.
  rewrite Hk, Hw, Ht. unfold Eff.try_ignore, Eff.storage_write.
  by rewrite Hw, Hs.
Qed.

(** [saveSecret] never raises and never makes a call. *)
Lemma saveSecret_quiet table player hand secret w :
  ∃ v, saveSecret table player hand secret w
       = (Ok tt, {| window := v; trace := trace w |}).
Proof.
  unfold saveSecret, Eff.bind, Eff.get_window, Eff.try_ignore,
    Eff.storage_write, Eff.ret.
  destruct w as [v tr]; simpl.
  destruct (getSecretStorageKey _ _ _); [|by eexists].
  destruct v as [ls|]; [|by eexists].
  destruct (JS.truthy secret); simpl.
  - destruct (Storage.setItem _ _ _); by eexists.
  - destruct (Storage.removeItem _ _); by eexists.
Qed.

(** The shape of a run of [handleRequestCards] that reached the
    collaborator. *)
Lemma handleRequestCards_submitted e table player hand w w' :
  handleRequestCards e table player hand w = (Ok tt, w') →
  ∃ v C,
    hashSecretToBytes (randomSecret e) = Some C
    ∧ saveSecret table player hand (randomSecret e) w
      = (Ok tt, {| window := v; trace := trace w |})
    ∧ w' = {| window := v;
              trace := trace w
                ++ [{| at_hand := hand;
                       made := ConsoleLog hand
                                 (N.of_nat (String.length (randomSecret e))) |};
                    {| at_hand := hand; made := SubmitCommit table C |}] |}.
Proof.
  unfold handleRequestCards, generateSecret.
  unfold Eff.bind at 1 2. unfold Eff.get_window at 1.
  destruct (window w) eqn:Hw; [|discriminate]. unfold Eff.ret at 1.
  unfold Eff.bind at 1.
  destruct (saveSecret_quiet table player hand (randomSecret e) w) as [v Hv].
  rewrite Hv.
  destruct (hashSecretToBytes (randomSecret e)) as [C|]; [|discriminate].
  unfold Eff.bind, Eff.emit; simpl. intros [= <-].
  exists v, C. split_and!; try done.
  by rewrite <- app_assoc.
Qed.

Lemma last_two {A} (l : list A) (a b : A) : last (l ++ [a; b]) = Some b.
Proof. change [a; b] with ([a] ++ [b]). by rewrite app_assoc, last_snoc. Qed.

Lemma loadStoredSecret_written ls ls' table player hand key secret :
  getSecretStorageKey table player hand = Some key →
  Storage.setItem ls key secret = Ok ls' →
  loadStoredSecret (Some ls') table player hand = secret.
Proof.
  intros Hk Hs. unfold loadStoredSecret. rewrite Hk.
  by rewrite (setItem_getItem _ _ _ _ Hs).
Qed.

(** What the panel takes for the stored secret on its first render is what
    [loadStoredSecret] returns then. *)
Lemma storedSecret_mount w p :
  storedSecret (panel (mount w p))
  = loadStoredSecret w (tableAddress p) (playerAddress p) (handNumber p).
Proof.
  unfold mount, rerender, render, useEffectAutoReveal, autoRevealBody. simpl.
  repeat (case_match; simpl); done.
Qed.

(** C1: when request-cards has generated the secret S, the store took the
    write and the commitment C was submitted, then loading the secret for
    the same table, hand and player, the player identity in any case of its
    letters, returns S, and hashing what was loaded gives C again. *)
Theorem request_cards_round_trip (e : entropy) (table : string)
    (player player' : option string) (hand : N) (w w' : World) :
  handleRequestCards e table player hand w = (Ok tt, w') →
  writeSucceeded w table player hand (randomSecret e) →
  sameIdentity player player' →
  ∃ C,
    last (trace w') = Some {| at_hand := hand; made := SubmitCommit table C |}
    ∧ loadStoredSecret (window w') table player' hand = randomSecret e
    ∧ hashSecretToBytes (loadStoredSecret (window w') table player' hand) = Some C
    ∧ (∀ p, tableAddress p = table → playerAddress p = player' →
            handNumber p = hand →
            storedSecret (panel (mount (window w') p)) = randomSecret e).
Proof.
  intros Hrun (key & ls & ls' & Hk & Hw & Hs) Hcase.
  destruct (handleRequestCards_submitted _ _ _ _ _ _ Hrun) as (v & C & HC & Hsave & ->).
  assert (JS.truthy (randomSecret e) = true) as Ht.
  { unfold hashSecretToBytes in HC. by destruct (JS.truthy _). }
  rewrite (saveSecret_written _ _ _ _ _ _ _ _ Hk Hw Ht Hs) in Hsave.
  injection Hsave as <-. simpl.
  rewrite (getSecretStorageKey_case _ _ _ _ Hcase) in Hk.
  rewrite (loadStoredSecret_written _ _ _ _ _ _ _ Hk Hs).
  exists C. split_and!; [|done|done|].
  - apply last_two.
  - intros p <- <- <-.
    change (storedSecret (panel (mount (Some ls') p)) = randomSecret e).
    rewrite storedSecret_mount.
    by apply (loadStoredSecret_written ls ls' _ _ _ key).
Qed.

Lemma request_cards_round_trip_witness :
  let e := CryptoBytes (replicate 32 0xab) in
  let w := {| window := Some {| Storage.items := ∅; Storage.accessible := true;
                                Storage.quota := 4096 |};
              trace := [] |} in
  let w' := snd (handleRequestCards e "0xTable" (Some "0xAbCd") 7 w) in
  ∃ C,
    last (trace w') = Some {| at_hand := 7; made := SubmitCommit "0xTable" C |}
    ∧ loadStoredSecret (window w') "0xTable" (Some "0xABCD") 7 = randomSecret e
    ∧ hashSecretToBytes (loadStoredSecret (window w') "0xTable" (Some "0xABCD") 7)
      = Some C.
Proof.
  intros e w w'.
  destruct (request_cards_round_trip e "0xTable" (Some "0xAbCd") (Some "0xABCD") 7 w w')
    as (C & Hlast & Hload & Hhash & _).
  - vm_compute. reflexivity.
  - eexists _, _, _. split_and!; [reflexivity | reflexivity | vm_compute; reflexivity].
  - reflexivity.
  - exists C. split_and!; assumption.
Defined.

(** C3, counterexample: the store holds an earlier value under the key and
    has no room for the new secret.  [setItem] raises, [saveSecret] swallows
    it, and the commitment of the new secret is submitted all the same: the
    earlier value is still what the store returns, the new secret is
    nowhere. *)
Lemma request_cards_commits_unsaved_secret :
  let e := CryptoBytes (replicate 32 0xab) in
  let w := {| window := Some {| Storage.items := {[ "holdem_secret_0xt_0xp_5" := "old" ]};
                                Storage.accessible := true;
                                Storage.quota := 50 |};
              trace := [] |} in
  let w' := snd (handleRequestCards e "0xt" (Some "0xp") 5 w) in
  fst (handleRequestCards e "0xt" (Some "0xp") 5 w) = Ok tt
  ∧ last (trace w')
    = Some {| at_hand := 5;
              made := SubmitCommit "0xt"
                        (Sha3.sha3_256 (JS.encode (randomSecret e))) |}
  ∧ loadStoredSecret (window w) "0xt" (Some "0xp") 5 = "old"
  ∧ loadStoredSecret (window w') "0xt" (Some "0xp") 5 = "old"
  ∧ randomSecret e ≠ "old".
Proof. vm_compute. split_and!; (reflexivity || discriminate). Qed.

(** The run operation by operation ends as the run in [Eff.M] does:
    [saveSecret] first. *)
Lemma Steps_saveSecret_agrees table player hand secret w :
  fst (Steps.perform (Steps.saveSecret table player hand secret) w)
  = saveSecret table player hand secret w.
Proof.
  unfold saveSecret, Eff.bind, Eff.get_window, Eff.try_ignore, Eff.ret. simpl.
  destruct (getSecretStorageKey _ _ _) as [key|]; [|done].
  destruct (window w) as [ls|] eqn:Hw; [|done].
  destruct (JS.truthy secret); simpl;
    destruct (Eff.storage_write _ w) as [[[]|m] w1]; done.
Qed.

(** What [saveSecret] does to the outside: nothing where there is no key
    or no window, one [setItem] for a secret that is not empty. *)
Lemma Steps_saveSecret_effects table player hand secret w :
  JS.truthy secret = true →
  is_Some (window w) →
  snd (Steps.perform (Steps.saveSecret table player hand secret) w)
  = match getSecretStorageKey table player hand with
    | Some key =>
        [Steps.DidSetItem key secret
           (fst (Eff.storage_write (λ ls, Storage.setItem ls key secret) w))]
    | None => []
    end.
Proof.
  intros Ht [ls Hw]. simpl. rewrite Hw, Ht.
  destruct (getSecretStorageKey _ _ _) as [key|]; [|done]. simpl.
  by destruct (Eff.storage_write _ w) as [[[]|m] w1].
Qed.

(** Running one sequence after another. *)
Lemma Steps_perform_bind {A B} (m : Steps.prog A) (f : A → Steps.prog B) : ∀ w,
  Steps.perform (Steps.bind m f) w
  = match Steps.perform m w with
    | (Ok a, w1, first) =>
        let '(r, w', rest) := Steps.perform (f a) w1 in (r, w', first ++ rest)
    | (Throw message, w1, first) => (Throw message, w1, first)
    end.
Proof.
  induction m as [a|message|k IH|key value k IH|key k IH|hand c k IH]; intros w; simpl.
  - by destruct (Steps.perform (f a) w) as [[r w'] rest].
  - done.
  - apply IH.
  - destruct (Eff.storage_write _ w) as [outcome w1]. rewrite IH.
    destruct (Steps.perform (k outcome) w1) as [[[a|message] w2] first]; [|done].
    by destruct (Steps.perform (f a) w2) as [[r w'] rest].
  - destruct (Eff.storage_write _ w) as [outcome w1]. rewrite IH.
    destruct (Steps.perform (k outcome) w1) as [[[a|message] w2] first]; [|done].
    by destruct (Steps.perform (f a) w2) as [[r w'] rest].
  - rewrite IH.
    destruct (Steps.perform k _) as [[[a|message] w2] first]; [|done].
    by destruct (Steps.perform (f a) w2) as [[r w'] rest].
Qed.

(** Then the two calls, made on the world [saveSecret] left. *)
Lemma Steps_handleRequestCards_perform e table player hand w w1 saving :
  is_Some (window w) →
  Steps.perform (Steps.saveSecret table player hand (randomSecret e)) w
  = (Ok tt, w1, saving) →
  Steps.perform (Steps.handleRequestCards e table player hand) w
  = match hashSecretToBytes (randomSecret e) with
    | None => (Throw "Failed to generate secret hash", w1, saving)
    | Some C =>
        let log := ConsoleLog hand (N.of_nat (String.length (randomSecret e))) in
        (Ok tt,
         snd (Eff.emit hand (SubmitCommit table C) (snd (Eff.emit hand log w1))),
         saving ++ [Steps.DidCall hand log (window w1);
                    Steps.DidCall hand (SubmitCommit table C) (window w1)])
    end.
Proof.
  intros [ls Hw] Hsave. unfold Steps.handleRequestCards.
  rewrite Steps_perform_bind.
  assert (Steps.perform (Steps.generateSecret e) w = (Ok (randomSecret e), w, []))
    as ->.
  { simpl. by rewrite Hw. }
  rewrite Steps_perform_bind, Hsave.
  destruct (hashSecretToBytes (randomSecret e)) as [C|]; simpl.
  - done.
  - by rewrite app_nil_r.
Qed.

(** On every world, for every outcome, the run operation by operation has
    the result and the world of [handleRequestCards]. *)
Lemma Steps_handleRequestCards_agrees e table player hand w :
  fst (Steps.perform (Steps.handleRequestCards e table player hand) w)
  = handleRequestCards e table player hand w.
Proof.
  destruct (window w) as [ls|] eqn:Hw.
  - destruct (saveSecret_quiet table player hand (randomSecret e) w) as [v Hv].
    pose proof (Steps_saveSecret_agrees table player hand (randomSecret e) w) as Hag.
    destruct (Steps.perform (Steps.saveSecret table player hand (randomSecret e)) w)
      as [[r w1] saving] eqn:Hsave.
    rewrite Hv in Hag. simpl in Hag. injection Hag as -> ->.
    rewrite (Steps_handleRequestCards_perform e table player hand w _ saving
               ltac:(by rewrite Hw) Hsave).
    unfold handleRequestCards, generateSecret.
    unfold Eff.bind at 1 2. unfold Eff.get_window at 1. rewrite Hw.
    unfold Eff.ret at 1. unfold Eff.bind at 1. rewrite Hv.
    destruct (hashSecretToBytes (randomSecret e)); done.
  - unfold handleRequestCards, generateSecret, Eff.bind, Eff.get_window. simpl.
    by rewrite Hw.
Qed.

(** The list of operations tells the order where the world at the end does
    not: with the two calls made before [saveSecret], the run ends in the
    same result and the same world, and the list is another one. *)
Example Steps_order_is_told :
  let e := MathRandom "0.4fzyo82mvyr" "0.k3l9tq1xw2" in
  let w := {| window := Some {| Storage.items := ∅; Storage.accessible := true;
                                Storage.quota := 4096 |};
              trace := [] |} in
  let callsFirst :=
    Steps.bind (Steps.generateSecret e) (λ newSecret,
    match hashSecretToBytes newSecret with
    | None => Steps.Raise "Failed to generate secret hash"
    | Some hashBytes =>
        Steps.Call 5 (ConsoleLog 5 (N.of_nat (String.length newSecret)))
          (Steps.Call 5 (SubmitCommit "0xt" hashBytes)
             (Steps.saveSecret "0xt" (Some "0xp") 5 newSecret))
    end) in
  fst (Steps.perform callsFirst w)
  = fst (Steps.perform (Steps.handleRequestCards e "0xt" (Some "0xp") 5) w)
  ∧ snd (Steps.perform callsFirst w)
    ≠ snd (Steps.perform (Steps.handleRequestCards e "0xt" (Some "0xp") 5) w).
Proof. vm_compute. split; [reflexivity | discriminate]. Qed.

(** C3, amended: whenever request-cards reaches the collaborator, it has (a)
    made a secret from fresh random input, (b) run [saveSecret] on it before
    any call went out: in the order of the operations the write to the store
    comes first and both calls come after it, made with the store as
    [saveSecret] left it; [saveSecret] makes the new secret the stored value
    of the key, whatever was stored before, whenever the store took the
    write, and (c) submitted as commitment the hash of that very secret, as
    its last call. *)
Theorem request_cards_sequence (e : entropy) (table : string)
    (player : option string) (hand : N) (w w' : World) :
  handleRequestCards e table player hand w = (Ok tt, w') →
  ∃ C w1 saving,
    saveSecret table player hand (randomSecret e) w = (Ok tt, w1)
    ∧ trace w1 = trace w
    ∧ window w' = window w1
    ∧ (writeSucceeded w table player hand (randomSecret e) →
       loadStoredSecret (window w1) table player hand = randomSecret e)
    ∧ trace w'
      = trace w1
          ++ [{| at_hand := hand;
                 made := ConsoleLog hand (N.of_nat (String.length (randomSecret e))) |};
              {| at_hand := hand; made := SubmitCommit table C |}]
    ∧ hashSecretToBytes (randomSecret e) = Some C
    ∧ C = Sha3.sha3_256 (JS.encode (randomSecret e))
    (* the order of the operations *)
    ∧ Steps.perform (Steps.saveSecret table player hand (randomSecret e)) w
      = (Ok tt, w1, saving)
    ∧ Steps.perform (Steps.handleRequestCards e table player hand) w
      = (Ok tt, w',
         saving
           ++ [Steps.DidCall hand
                 (ConsoleLog hand (N.of_nat (String.length (randomSecret e))))
                 (window w1);
               Steps.DidCall hand (SubmitCommit table C) (window w1)])
    ∧ match getSecretStorageKey table player hand with
      | Some key =>
          ∃ outcome,
            saving = [Steps.DidSetItem key (randomSecret e) outcome]
            ∧ (writeSucceeded w table player hand (randomSecret e) →
               outcome = Ok tt)
      | None => saving = []
      end.
Proof.
  intros Hrun.
  destruct (handleRequestCards_submitted _ _ _ _ _ _ Hrun) as (v & C & HC & Hsave & ->).
  assert (JS.truthy (randomSecret e) = true) as Ht.
  { unfold hashSecretToBytes in HC. by destruct (JS.truthy _). }
  assert (is_Some (window w)) as Hwin.
  { unfold handleRequestCards, generateSecret, Eff.bind, Eff.get_window in Hrun.
    destruct (window w); [by eexists | discriminate]. }
  destruct (Steps.perform (Steps.saveSecret table player hand (randomSecret e)) w)
    as [[r w1] saving] eqn:Hexec.
  pose proof (Steps_saveSecret_agrees table player hand (randomSecret e) w) as Hag.
  rewrite Hexec, Hsave in Hag. simpl in Hag. injection Hag as -> ->.
  pose proof (Steps_saveSecret_effects table player hand (randomSecret e) w Ht Hwin)
    as Heff.
  rewrite Hexec in Heff. simpl in Heff.
  exists C, {| window := v; trace := trace w |}, saving. cbn [window trace].
  split_and!; try done.
  - intros (key & ls & ls' & Hk & Hw & Hs).
    rewrite (saveSecret_written _ _ _ _ _ _ _ _ Hk Hw Ht Hs) in Hsave.
    injection Hsave as <-.
    by apply (loadStoredSecret_written ls ls' _ _ _ key).
  - unfold hashSecretToBytes in HC. rewrite Ht in HC. by injection HC.
  - rewrite (Steps_handleRequestCards_perform e table player hand w _ _ Hwin Hexec).
    rewrite HC. cbv zeta. unfold Eff.emit. simpl. by rewrite <- app_assoc.
  - destruct (getSecretStorageKey table player hand) as [key|] eqn:Hkey; [|done].
    eexists. split; [done |].
    intros (key' & ls & ls' & Hk & Hw & Hs).
    rewrite Hkey in Hk. injection Hk as <-.
    unfold Eff.storage_write. by rewrite Hw, Hs.
Qed.

Lemma request_cards_sequence_witness :
  let e := MathRandom "0.4fzyo82mvyr" "0.k3l9tq1xw2" in
  let held := {| Storage.items := {[ "holdem_secret_0xt_0xp_5" := "old" ]};
                 Storage.accessible := true;
                 Storage.quota := 4096 |} in
  let w := {| window := Some held; trace := [] |} in
  let w' := snd (handleRequestCards e "0xt" (Some "0xp") 5 w) in
  let C := Sha3.sha3_256 (JS.encode "4fzyo82mvyrk3l9tq1xw2") in
  randomSecret e = "4fzyo82mvyrk3l9tq1xw2"
  ∧ loadStoredSecret (window w') "0xt" (Some "0xp") 5 = "4fzyo82mvyrk3l9tq1xw2"
  ∧ map made (trace w') = [ConsoleLog 5 21; SubmitCommit "0xt" C]
  ∧ snd (Steps.perform (Steps.handleRequestCards e "0xt" (Some "0xp") 5) w)
    = [Steps.DidSetItem "holdem_secret_0xt_0xp_5" "4fzyo82mvyrk3l9tq1xw2" (Ok tt);
       Steps.DidCall 5 (ConsoleLog 5 21) (window w');
       Steps.DidCall 5 (SubmitCommit "0xt" C) (window w')].
Proof.
  intros e held w w' C.
  destruct (request_cards_sequence e "0xt" (Some "0xp") 5 w w')
    as (C' & w1 & saving & Hsave & _ & Hwin & Hload & Htrace & _ & -> & _
        & Hexec & Hsaving).
  { vm_compute. reflexivity. }
  assert (writeSucceeded w "0xt" (Some "0xp") 5 (randomSecret e)) as Hwrite.
  { eexists _, _, _.
    split_and!; [reflexivity | reflexivity | vm_compute; reflexivity]. }
  assert (getSecretStorageKey "0xt" (Some "0xp") 5 = Some "holdem_secret_0xt_0xp_5")
    as Hkey by reflexivity.
  rewrite Hkey in Hsaving. destruct Hsaving as (outcome & -> & Hok).
  rewrite (Hok Hwrite) in Hexec.
  split_and!.
  - reflexivity.
  - rewrite Hwin. apply Hload, Hwrite.
  - rewrite Htrace.
    replace (trace w1) with (@nil entry); [reflexivity |].
    vm_compute in Hsave. by injection Hsave as <-.
  - rewrite Hexec, Hwin. reflexivity.
Defined.

(** ** How renders and events touch the cells of the auto-reveal effect *)

Lemma useMemoStoredSecret_cells w p st :
  let st' := useMemoStoredSecret w p st in
  autoRevealTriggeredRef st' = autoRevealTriggeredRef st
  ∧ autoRevealTimeout st' = autoRevealTimeout st
  ∧ autoRevealDeps st' = autoRevealDeps st
  ∧ activeAction st' = activeAction st
  ∧ revealStatus st' = revealStatus st
  ∧ playersInHand st' = playersInHand st.
Proof.
  unfold useMemoStoredSecret. destruct (storedSecretMemo st) as [[old v]|];
    [destruct (bool_decide _)|]; done.
Qed.

(** After a render the effect has run for what the render computed. *)
Lemma render_deps w p st :
  autoRevealDeps (render w p st) = Some (autoRevealDepsOf p (render w p st)).
Proof.
  unfold render, useEffectAutoReveal.
  set (st1 := useMemoStoredSecret w p st).
  destruct (bool_decide _) eqn:Hd.
  - by apply bool_decide_eq_true in Hd.
  - unfold autoRevealBody. by destruct (autoRevealGuard _ _).
Qed.

(** The three ways a render can go for the auto-reveal effect: it is
    skipped; it runs and leaves no timeout; it runs and arms one. *)
Lemma render_cases w p st :
  let st' := render w p st in
  (autoRevealDeps st' = autoRevealDeps st
   ∧ autoRevealTriggeredRef st' = autoRevealTriggeredRef st
   ∧ autoRevealTimeout st' = autoRevealTimeout st)
  ∨ (autoRevealTriggeredRef st' = autoRevealTriggeredRef st
     ∧ autoRevealTimeout st' = None)
  ∨ (autoRevealTriggeredRef st ≠ handNumber p
     ∧ autoRevealTriggeredRef st' = handNumber p
     ∧ is_Some (autoRevealTimeout st')
     ∧ JS.truthy (storedSecret st') = true
     ∧ phase p = GAME_PHASES.REVEAL
     ∧ hasRevealed p st' = false
     ∧ activeAction st' = None).
Proof.
  unfold render, useEffectAutoReveal.
  destruct (useMemoStoredSecret_cells w p st) as (Hr & Ht & Hd & Ha & _).
  set (st1 := useMemoStoredSecret w p st) in *.
  destruct (bool_decide _).
  - left. done.
  - right. unfold autoRevealBody.
    destruct (autoRevealGuard p (setTimeout None st1)) eqn:Hg.
    + right. unfold autoRevealGuard in Hg.
      repeat (apply andb_prop in Hg as [Hg ?]). simpl in *.
      split_and!; try done.
      * rewrite <- Hr. intros Heq. rewrite Heq, N.eqb_refl in *. done.
      * by apply N.eqb_eq.
      * by apply negb_true_iff.
      * by destruct (activeAction st1).
    + left. done.
Qed.


Lemma filter_noReveals_all l : noReveals l → List.filter isReveal l = [].
Proof. induction 1 as [|x l Hx _ IH]; simpl; [done | by rewrite Hx]. Qed.


Lemma reveals_app s s' l :
  trace (world s') = trace (world s) ++ l → noReveals l → reveals s' = reveals s.
Proof.
  intros Ht Hl. unfold reveals.
  rewrite Ht, List.filter_app, (filter_noReveals_all _ Hl), app_nil_r. done.
Qed.

(** No button makes a call of the reveal action. *)
Lemma actionOf_trace b e p w :
  ∃ l, trace (snd (actionOf b e p w)) = trace w ++ l ∧ noReveals l.
Proof.
  destruct b; simpl;
    try (eexists [_]; split; [reflexivity | by repeat constructor]).
  - unfold handleRequestCards, generateSecret.
    unfold Eff.bind at 1 2. unfold Eff.get_window at 1.
    destruct (window w) eqn:Hw; simpl.
    2: { exists []. split; [by rewrite app_nil_r | constructor]. }
    unfold Eff.bind at 1.
    destruct (saveSecret_quiet (tableAddress p) (playerAddress p) (handNumber p)
                (randomSecret e) w) as [v Hv].
    rewrite Hv. destruct (hashSecretToBytes _); simpl.
    + eexists [_; _]. split; [by rewrite <- app_assoc | by repeat constructor].
    + exists []. split; [by rewrite app_nil_r | constructor].
  - destruct (match seatOf p with Some _ => _ | None => _ end);
      (eexists [_]; split; [reflexivity | by repeat constructor]).
  - destruct (pendingLeave p);
      (eexists [_]; split; [reflexivity | by repeat constructor]).
Qed.

Lemma runLifecycleAction_cells action name s :
  let s' := runLifecycleAction action name s in
  props s' = props s
  ∧ autoRevealTriggeredRef (panel s') = autoRevealTriggeredRef (panel s)
  ∧ autoRevealDeps (panel s') = autoRevealDeps (panel s)
  ∧ storedSecretMemo (panel s') = storedSecretMemo (panel s)
  ∧ autoRevealTimeout (panel s') = autoRevealTimeout (panel s)
  ∧ ∃ l, trace (world s') = trace (snd (action (world s))) ++ l ∧ noReveals l.
Proof.
  unfold runLifecycleAction. simpl.
  destruct (action (world s)) as [[[]|message] w]; simpl; split_and!; try done.
  - exists []. split; [by rewrite app_nil_r | constructor].
  - eexists [_]. split; [reflexivity | by repeat constructor].
Qed.

(** What an event does before the render that follows it: the ref, the
    dependencies of the last run and the memo stay; either the timeout stays
    and no reveal is called, or the event is the timeout itself, which is
    gone afterwards and has called the reveal action once, under the hand
    number the panel shows. *)
Lemma handle_effect s ev :
  let s' := handle s ev in
  autoRevealTriggeredRef (panel s') = autoRevealTriggeredRef (panel s)
  ∧ autoRevealDeps (panel s') = autoRevealDeps (panel s)
  ∧ storedSecretMemo (panel s') = storedSecretMemo (panel s)
  ∧ match ev with NewProps p => props s' = p | _ => props s' = props s end
  ∧ ((autoRevealTimeout (panel s') = autoRevealTimeout (panel s)
      ∧ ∃ l, trace (world s') = trace (world s) ++ l ∧ noReveals l)
     ∨ (ev = TimeoutElapsed
        ∧ is_Some (autoRevealTimeout (panel s))
        ∧ autoRevealTimeout (panel s') = None
        ∧ ∃ x, isReveal x = true ∧ at_hand x = handNumber (props s)
               ∧ trace (world s') = trace (world s) ++ [x])).
Proof.
  destruct ev as [p|b e| |i outcome|commits reveals players]; simpl.
  - split_and!; try done. left. split; [done |].
    exists []. split; [by rewrite app_nil_r | constructor].
  - unfold click. destruct (_ && _).
    + destruct (runLifecycleAction_cells (actionOf b e (props s)) (actionNameOf b) s)
        as (Hp & Hr & Hd & Hm & Ht & l & Hl & Hn).
      destruct (actionOf_trace b e (props s) (world s)) as (l' & Hl' & Hn').
      split_and!; try done. left. split; [done |].
      exists (l' ++ l). split; [by rewrite Hl, Hl', app_assoc | by apply Forall_app].
    + split_and!; try done. left. split; [done |].
      exists []. split; [by rewrite app_nil_r | constructor].
  - unfold timeoutFires. destruct (autoRevealTimeout (panel s)) as [t|] eqn:Ht.
    + split_and!; try done. right. split_and!; try done.
      eexists. split_and!; [| |reflexivity]; done.
    + split_and!; try done. left. split; [done |].
      exists []. split; [by rewrite app_nil_r | constructor].
  - unfold settle. destruct (inFlight (panel s) !! i) as [[name|name]|];
      [destruct outcome as [[]|message] .. |]; simpl; split_and!; try done;
      left; (split; [done |]);
      first [ (exists []; split; [by rewrite app_nil_r | constructor])
            | (eexists [_]; split; [reflexivity | by repeat constructor]) ].
  - unfold fetchStatus. destruct (promiseAll _ _ _) as [[[c r] pl]|message];
      simpl; split_and!; try done; left; (split; [done |]).
    + exists []. split; [by rewrite app_nil_r | constructor].
    + eexists [_]. split; [reflexivity | by repeat constructor].
Qed.

(** ** At most one reveal for a hand *)










Lemma settled_inv_step s ev : settled_inv s → settled_inv (step s ev).
Proof.
  intros [Hlast Href].
  destruct (handle_effect s ev) as (Hr & Hd & _ & _ & Hev).
  pose proof (render_deps (window (world (handle s ev))) (props (handle s ev))
                (panel (handle s ev))) as Hdeps.
  assert (lastHand (panel (step s ev)) = handNumber (props (step s ev))) as Hlast'.
  { unfold step, rerender, lastHand. simpl. by rewrite Hdeps. }
  split; [done |].
  unfold step, rerender in *. simpl in *. intros [t Ht].
  destruct (render_cases (window (world (handle s ev))) (props (handle s ev))
              (panel (handle s ev)))
    as [(Hd' & Hr' & Ht')|[(_ & Ht')|(_ & Hr' & _)]]; [|congruence|done].
  rewrite Hr', Hr, <- Hlast'. unfold lastHand. rewrite Hd', Hd.
  fold (lastHand (panel s)). rewrite Hlast. apply Href.
  destruct Hev as [(Ht1 & _)|(_ & _ & Ht1 & _)]; [|congruence].
  rewrite <- Ht1, <- Ht'. by eexists.
Qed.

Lemma settled_inv_mount w p : settled_inv (mount w p).
Proof.
  pose proof (render_deps w p initialState) as Hdeps.
  split.
  - unfold mount, rerender, lastHand. cbn [panel props world window].
    by rewrite Hdeps.
  - unfold mount, rerender. cbn [panel props world window]. intros [t Ht].
    destruct (render_cases w p initialState)
      as [(_ & _ & Ht')|[(_ & Ht')|(_ & Hr' & _)]]; [| |done];
      cbn [autoRevealTimeout initialState] in *; congruence.
Qed.

Lemma settled_inv_run evs : ∀ s, settled_inv s → settled_inv (run s evs).
Proof.
  induction evs as [|ev evs IH]; intros s Hinv; [done |].
  simpl. by apply IH, settled_inv_step.
Qed.

Lemma revealsLeft_step s ev :
  settled_inv s →
  match ev with NewProps p => handNumber p = handNumber (props s) | _ => True end →
  (reveals (step s ev) + revealsLeft (step s ev) ≤ reveals s + revealsLeft s)%nat.
Proof.
  intros [Hlast Href] Hstay.
  destruct (handle_effect s ev) as (Hr & _ & _ & Hp & Hev).
  assert (handNumber (props (handle s ev)) = handNumber (props s)) as Hh.
  { destruct ev; rewrite Hp; done. }
  assert (reveals (handle s ev) + revealsLeft (handle s ev)
          ≤ reveals s + revealsLeft s)%nat as Hhandle.
  { unfold revealsLeft. rewrite Hr, Hh.
    destruct Hev as [(Ht & l & Hl & Hn)|(_ & [t Ht] & Ht1 & x & Hx & _ & Hl)].
    - rewrite Ht, (reveals_app s _ l Hl Hn). done.
    - rewrite Ht1, Ht. rewrite Href by (by eexists). rewrite N.eqb_refl.
      unfold reveals. rewrite Hl, List.filter_app, length_app. simpl.
      rewrite Hx. simpl. lia. }
  etrans; [|exact Hhandle].
  change (reveals (step s ev)) with (reveals (handle s ev)).
  apply Nat.add_le_mono_l.
  unfold revealsLeft, step, rerender. simpl.
  destruct (render_cases (window (world (handle s ev))) (props (handle s ev))
              (panel (handle s ev)))
    as [(_ & Hr' & Ht')|[(Hr' & Ht')|(Hne & Hr' & [t Ht'] & _)]].
  - by rewrite Hr', Ht'.
  - rewrite Hr', Ht'. repeat case_match; lia.
  - rewrite Ht'. destruct (autoRevealTimeout (panel (handle s ev))); [done |].
    by destruct (N.eqb_spec (autoRevealTriggeredRef (panel (handle s ev)))
                   (handNumber (props (handle s ev)))).
Qed.

Lemma handStays_step h ev evs s :
  handNumber (props s) = h → handStays h (ev :: evs) →
  handNumber (props (step s ev)) = h.
Proof.
  intros Hs Hst. apply Forall_cons in Hst as [Hev _].
  change (props (step s ev)) with (props (handle s ev)).
  destruct (handle_effect s ev) as (_ & _ & _ & Hp & _).
  destruct ev; rewrite Hp; done.
Qed.

(** The same bound read along one hand: whatever happened before, while
    the hand number stays the same the reveal action is invoked at most once
    more. *)
Lemma at_most_once_while_hand_stays evs : ∀ s,
  settled_inv s → handStays (handNumber (props s)) evs →
  (reveals (run s evs) ≤ reveals s + 1)%nat.
Proof.
  assert (∀ s, settled_inv s → handStays (handNumber (props s)) evs →
          (reveals (run s evs) + revealsLeft (run s evs)
           ≤ reveals s + revealsLeft s)%nat) as Hgen.
  { induction evs as [|ev evs IH]; intros s Hinv Hst; [done |].
    simpl. etrans.
    - apply IH; [by apply settled_inv_step |].
      rewrite (handStays_step _ ev evs s eq_refl Hst).
      by apply Forall_cons in Hst as [_ ?].
    - apply revealsLeft_step; [done |].
      apply Forall_cons in Hst as [Hev _]. by destruct ev. }
  intros s Hinv Hst. specialize (Hgen s Hinv Hst).
  assert (revealsLeft s ≤ 1)%nat.
  { unfold revealsLeft. repeat case_match; lia. }
  lia.
Qed.

(** ** Hand number 0 *)




(** ** A cancelled timeout *)





(** ** No stored secret *)

Lemma render_lastSecret w p st :
  lastSecret (render w p st) = storedSecret (render w p st).
Proof. unfold lastSecret. by rewrite render_deps. Qed.

Lemma secret_inv_render w p st :
  secret_inv st → secret_inv (render w p st).
Proof.
  intros Hinv. unfold secret_inv.
  pose proof (render_lastSecret w p st) as Hls.
  rewrite render_deps. split; [done |].
  intros Hsome.
  destruct (render_cases w p st)
    as [(Hd & _ & Ht)|[(_ & Ht)|(_ & _ & _ & Htruthy & _)]].
  - rewrite Ht in Hsome. unfold secret_inv in Hinv.
    unfold lastSecret in Hls. rewrite Hd in Hls.
    destruct (autoRevealDeps st) as [d|] eqn:Hdeps.
    + destruct Hinv as [Hl Htr]. rewrite <- Hls.
      unfold lastSecret in Hl. rewrite Hdeps in Hl. rewrite Hl. by apply Htr.
    + rewrite Hinv in Hsome. by destruct Hsome.
  - rewrite Ht in Hsome. by destruct Hsome.
  - done.
Qed.

Lemma secret_inv_step s ev : secret_inv (panel s) → secret_inv (panel (step s ev)).
Proof.
  intros Hinv. unfold step, rerender. simpl. apply secret_inv_render.
  destruct (handle_effect s ev) as (_ & Hd & Hm & _ & Hev).
  assert (autoRevealTimeout (panel (handle s ev)) = autoRevealTimeout (panel s)
          ∨ autoRevealTimeout (panel (handle s ev)) = None) as Ht.
  { destruct Hev as [(Ht & _)|(_ & _ & Ht & _)]; auto. }
  unfold secret_inv, lastSecret, storedSecret in *. rewrite Hd, Hm.
  destruct (autoRevealDeps (panel s)).
  - destruct Hinv as [Hl Htr]. split; [done |].
    destruct Ht as [-> | ->]; [done |]. by intros [??].
  - destruct Ht as [-> | ->]; done.
Qed.

Lemma secret_inv_run evs : ∀ s, secret_inv (panel s) → secret_inv (panel (run s evs)).
Proof.
  induction evs as [|ev evs IH]; intros s Hinv; [done |].
  simpl. by apply IH, secret_inv_step.
Qed.

Lemma secret_inv_mount w p : secret_inv (panel (mount w p)).
Proof. unfold mount, rerender. simpl. by apply secret_inv_render. Qed.

(** With the stored secret empty, no timeout is pending. *)
Lemma no_secret_no_timeout st :
  secret_inv st → storedSecret st = "" → autoRevealTimeout st = None.
Proof.
  unfold secret_inv. intros Hinv Hs.
  destruct (autoRevealDeps st); [|done].
  destruct Hinv as [_ Htr]. destruct (autoRevealTimeout st); [|done].
  rewrite Hs in Htr. by specialize (Htr (mk_is_Some _ _ eq_refl)).
Qed.

Lemma no_secret_no_reveal evs : ∀ s,
  secret_inv (panel s) → secretAbsentAlong s evs →
  reveals (run s evs) = reveals s.
Proof.
  induction evs as [|ev evs IH]; intros s Hinv Habs; [done |].
  destruct Habs as [Hs Hrest]. simpl.
  rewrite IH; [|by apply secret_inv_step | done].
  change (reveals (handle s ev) = reveals s).
  destruct (handle_effect s ev) as (_ & _ & _ & _ & Hev).
  destruct Hev as [(_ & l & Hl & Hn)|(_ & [t Ht] & _)].
  - by apply (reveals_app s _ l).
  - by rewrite (no_secret_no_timeout _ Hinv Hs) in Ht.
Qed.

(** C5, counterexample: the REVEAL phase with nothing in the store, and the
    poll reports that the player has revealed already (from another
    browser, say).  The card shows the confirmation, not the advisory. *)
Lemma revealed_without_secret_is_confirmed :
  let s := run (mount (Some Sample.emptyStore) (Sample.propsAt GAME_PHASES.REVEAL 5))
             [Sample.polled true] in
  phase (props s) = GAME_PHASES.REVEAL
  ∧ loadStoredSecret (window (world s)) "0xt" (playerAddress (props s)) 5 = ""
  ∧ storedSecret (panel s) = ""
  ∧ acceptCardsCard (props s) (panel s) = Some Confirmed
  ∧ acceptCardsCard (props s) (panel s) ≠ Some SecretNotFound.
Proof. vm_compute. split_and!; (reflexivity || discriminate). Qed.

(** C5, amended: in a mounted panel, as long as the stored secret the panel
    holds for the current key is empty, no timeout of the auto-reveal effect
    is pending and the reveal action is never invoked automatically; in the
    REVEAL phase the card then shows the advisory "Secret not found", unless
    the player is already marked as revealed (the confirmation is shown) or
    a reveal is in flight (the signing notice is shown). *)
Theorem missing_secret_in_reveal (w : Window) (p : LifecyclePanelProps)
    (before after : list event) :
  let s := run (mount w p) before in
  secretAbsentAlong s after →
  reveals (run s after) = reveals s
  ∧ autoRevealTimeout (panel s) = None
  ∧ handle s TimeoutElapsed = s
  ∧ (phase (props s) = GAME_PHASES.REVEAL →
     acceptCardsCard (props s) (panel s)
     = Some (if hasRevealed (props s) (panel s) then Confirmed
             else if bool_decide (activeAction (panel s) = Some reveal) then Signing
             else SecretNotFound)).
Proof.
  intros s Habs.
  assert (secret_inv (panel s)) as Hinv.
  { apply secret_inv_run, secret_inv_mount. }
  assert (storedSecret (panel s) = "") as Hs by (by destruct after, Habs).
  pose proof (no_secret_no_timeout _ Hinv Hs) as Hnone.
  split_and!.
  - by apply no_secret_no_reveal.
  - done.
  - simpl. unfold timeoutFires. by rewrite Hnone.
  - intros Hph. unfold acceptCardsCard. rewrite Hph, Hs. simpl.
    by repeat case_match.
Qed.

Lemma missing_secret_in_reveal_witness :
  let s := run (mount (Some Sample.emptyStore) (Sample.propsAt GAME_PHASES.COMMIT 5))
             [Sample.polled false; NewProps (Sample.propsAt GAME_PHASES.REVEAL 5)] in
  let after := [Sample.polled false; TimeoutElapsed;
                NewProps (Sample.propsAt GAME_PHASES.REVEAL 5); TimeoutElapsed] in
  reveals (run s after) = 0%nat
  ∧ acceptCardsCard (props s) (panel s) = Some SecretNotFound.
Proof.
  intros s after.
  destruct (missing_secret_in_reveal (Some Sample.emptyStore)
              (Sample.propsAt GAME_PHASES.COMMIT 5)
              [Sample.polled false; NewProps (Sample.propsAt GAME_PHASES.REVEAL 5)]
              after) as (Hnever & _ & _ & Hcard).
  - vm_compute. tauto.
  - split; [exact Hnever | exact (Hcard eq_refl)].
Defined.

(** ** One action at a time *)

(** C2, counterexample: the timeout of the auto-reveal is armed, the player
    clicks "Sit Out", and while that action is in flight the timeout
    elapses.  [runLifecycleAction] does not look at the tag that is set: the
    reveal action is invoked as well, and two actions are in flight.  Called
    with any other action in that state, it invokes that one just the
    same. *)
Lemma second_action_reaches_collaborator :
  let s := run (mount (Some Sample.store) (Sample.propsAt GAME_PHASES.REVEAL 5))
             [Sample.polled false; Clicked SitToggleButton Sample.noEntropy] in
  activeAction (panel s) = Some sitout
  ∧ inFlight (panel s) = [AwaitAction sitout]
  ∧ actionCalls s = [SitOut "0xt"]
  ∧ actionCalls (step s TimeoutElapsed)
    = [SitOut "0xt"; RevealSecret "0xt" (JS.encode "5e")]
  ∧ inFlight (panel (step s TimeoutElapsed)) = [AwaitAction sitout; AwaitAction reveal]
  ∧ actionCalls (runLifecycleAction (Eff.emit 5 (LeaveAfterHand "0xt")) leave s)
    = [SitOut "0xt"; LeaveAfterHand "0xt"].
Proof. vm_compute. split_and!; reflexivity. Qed.

(** C2, amended: while an action is in flight (the tag is set), every button
    that starts a lifecycle action (start, request cards, sit toggle, leave,
    leave after hand) is disabled; a click on it changes nothing and invokes
    no call. *)
Theorem buttons_disabled_while_in_flight (s : System) (b : button) (e : entropy) :
  activeAction (panel s) ≠ None →
  disabled b (props s) (panel s) = true
  ∧ click b e s = s
  ∧ world (step s (Clicked b e)) = world s.
Proof.
  intros Hbusy.
  assert (disabled b (props s) (panel s) = true) as Hd.
  { destruct (activeAction (panel s)) as [a|] eqn:Ha; [|done].
    destruct b; simpl; unfold startDisabled, requestCardsDisabled;
      rewrite Ha; simpl; by rewrite ?orb_true_r. }
  assert (click b e s = s) as Hc.
  { unfold click. by rewrite Hd, andb_false_r. }
  split_and!; [done | done |].
  unfold step. simpl. by rewrite Hc.
Qed.

Lemma buttons_disabled_while_in_flight_witness :
  let s0 := mount (Some Sample.store) (Sample.propsAt GAME_PHASES.COMMIT 5) in
  let s := step s0 (Clicked SitToggleButton Sample.noEntropy) in
  disabled RequestCardsButton (props s0) (panel s0) = false
  ∧ activeAction (panel s) = Some sitout
  ∧ disabled RequestCardsButton (props s) (panel s) = true
  ∧ actionCalls (step s (Clicked RequestCardsButton Sample.noEntropy)) = [SitOut "0xt"].
Proof.
  intros s0 s.
  destruct (buttons_disabled_while_in_flight s RequestCardsButton Sample.noEntropy)
    as (Hd & _ & Hw).
  - discriminate.
  - split_and!; [reflexivity | reflexivity | exact Hd |].
    unfold actionCalls. rewrite Hw. reflexivity.
Defined.

(** * Further properties of the code *)

(** ** The deadline text *)

Lemma append_cons (x : ascii) (a b : string) : String x a +:+ b = String x (a +:+ b).
Proof. reflexivity. Qed.

Lemma append_assoc_s (a b c : string) : (a +:+ b) +:+ c = a +:+ b +:+ c.
Proof.
  induction a as [|x a IH]; [reflexivity |].
  by rewrite !append_cons, IH.
Qed.

Lemma not_Expired (a : string) : a +:+ "s" ≠ "Expired".
Proof.
  intros H.
  do 7 (destruct a as [|? a]; [discriminate |];
        rewrite append_cons in H; injection H as _ H).
  destruct a; discriminate.
Qed.

(** [formatDeadline], for whole-second timestamps within the safe integers:
    nothing is shown for a missing or non-positive deadline; "Expired" is
    shown exactly when a positive deadline is not in the future; otherwise
    the text gives minutes and seconds that add up to the time left,
    seconds below 60, and the minutes are left out when they are zero. *)
Theorem formatDeadline_spec (now : Z) (deadline : option Z) :
  safeTimestamps now deadline →
  (formatDeadline now deadline = None
   ↔ deadline = None ∨ ∃ d, deadline = Some d ∧ (d ≤ 0)%Z)
  ∧ (formatDeadline now deadline = Some "Expired"
     ↔ ∃ d, deadline = Some d ∧ (0 < d ≤ now)%Z)
  ∧ (∀ d, deadline = Some d → (0 < d)%Z → (now < d)%Z →
       ∃ m s : Z,
         (60 * m + s = d - now ∧ 0 ≤ m ∧ 0 ≤ s < 60)%Z
         ∧ (0 < d - now ≤ MAX_SAFE_INTEGER)%Z
         ∧ formatDeadline now deadline
           = Some (if (0 <? m)%Z then pretty m +:+ "m " +:+ pretty s +:+ "s"
                   else pretty s +:+ "s")).
Proof.
  intros [Hnow Hsafe].
  unfold formatDeadline. destruct deadline as [d|].
  2: { split_and!; [split; [by left | done] | | done].
       split; [done | by intros (? & ? & _)]. }
  specialize (Hsafe d eq_refl).
  split_and!.
  - destruct (Z.eqb_spec d 0), (Z.leb_spec d 0); simpl;
      try (split; [done | intros [? | (? & [= <-] & ?)]; [done | lia]]);
      try (split; [intros _; right; exists d; split; [done | lia] | done]).
    repeat case_match; (split; [done | intros [? | (? & [= <-] & ?)]; [done | lia]]).
  - destruct (Z.eqb_spec d 0), (Z.leb_spec d 0); simpl;
      try (split; [done | intros (? & [= <-] & ?); lia]).
    destruct (Z.leb_spec (d - now) 0).
    + split; [intros _; exists d; split; [done | lia] | done].
    + split; [|intros (? & [= <-] & ?); lia].
      destruct (0 <? _)%Z; intros [= Htext]; exfalso.
      * rewrite <- !append_assoc_s in Htext. by apply not_Expired in Htext.
      * by apply not_Expired in Htext.
  - intros ? [= <-] Hpos Hfut.
    destruct (Z.eqb_spec d 0), (Z.leb_spec d 0); simpl; try lia.
    destruct (Z.leb_spec (d - now) 0); [lia |].
    exists ((d - now) `div` 60)%Z, ((d - now) `mod` 60)%Z.
    pose proof (Z.div_mod (d - now) 60 ltac:(lia)).
    pose proof (Z.mod_pos_bound (d - now) 60 ltac:(lia)).
    pose proof (Z.div_pos (d - now) 60 ltac:(lia) ltac:(lia)).
    split_and!; [lia | lia | lia | lia | lia | lia | by destruct (0 <? _)%Z].
Qed.

Lemma formatDeadline_spec_witness :
  formatDeadline 1000 (Some 1125%Z) = Some "2m 5s"
  ∧ formatDeadline 1000 (Some 1030%Z) = Some "30s"
  ∧ formatDeadline 1000 (Some 990%Z) = Some "Expired".
Proof.
  destruct (formatDeadline_spec 1000 (Some 1125%Z)) as (_ & _ & Hleft).
  { split; [vm_compute; split; discriminate |].
    intros d [= <-]. vm_compute. split; discriminate. }
  destruct (Hleft 1125%Z eq_refl) as (m & s & Hms & _ & Htext); [lia | lia |].
  assert (m = 2 ∧ s = 5)%Z as [-> ->] by lia.
  split_and!; [exact Htext | reflexivity | reflexivity].
Defined.

(** ** The start button and its hint *)

(** In the WAITING phase with no action in flight, "Start Hand" is disabled
    exactly when a hint says why; outside WAITING there is never a hint. *)
Theorem startHint_explains_disabled (p : LifecyclePanelProps) (st : PanelState) :
  (phase p = GAME_PHASES.WAITING → activeAction st = None →
     (startDisabled p st = true ↔ startHint p ≠ None))
  ∧ (phase p ≠ GAME_PHASES.WAITING → startHint p = None ∧ startDisabled p st = true).
Proof.
  unfold startDisabled, startHint, canStartHand. split.
  - intros -> ->. simpl.
    destruct (isPaused p), (activeSeats p <? 2)%nat, (isAdminOnlyStart p),
      (isAdmin p), (isActionOnPlayer p); simpl; split; (done || by intros []).
  - intros Hne. apply N.eqb_neq in Hne. by rewrite Hne.
Qed.

Lemma startHint_explains_disabled_witness :
  startDisabled (Sample.propsAt GAME_PHASES.WAITING 5) initialState = true
  ∧ startHint (Sample.propsAt GAME_PHASES.WAITING 5)
    = Some "Need at least 2 active players.".
Proof.
  split; [|reflexivity].
  apply (proj1 (startHint_explains_disabled (Sample.propsAt GAME_PHASES.WAITING 5)
                  initialState)); [reflexivity | reflexivity | discriminate].
Defined.

(** ** The text of a secret *)

Lemma unhex_hex_digit d : d < 16 → unhex_digit (JS.hex_digit d) = d.
Proof.
  intros Hd. unfold unhex_digit, JS.hex_digit, JS.code.
  destruct (N.ltb_spec d 10).
  - rewrite N_ascii_embedding by lia.
    destruct (N.ltb_spec (48 + d) 58); lia.
  - rewrite N_ascii_embedding by lia.
    destruct (N.ltb_spec (87 + d) 58); lia.
Qed.

(** The hexadecimal text [generateSecret] makes of the random bytes has two
    characters for each byte and can be read back to the very bytes: the
    secret carries all the randomness of [getRandomValues]. *)
Theorem hex_join_round_trip (bytes : list N) :
  Forall (λ b, b < 256) bytes →
  hex_parse (JS.hex_join bytes) = bytes
  ∧ String.length (JS.hex_join bytes) = (2 * length bytes)%nat.
Proof.
  induction 1 as [|b bytes Hb _ [IHp IHl]]; [done |].
  change (JS.hex_join (b :: bytes))
    with (String (JS.hex_digit (b / 16))
            (String (JS.hex_digit (b mod 16)) (JS.hex_join bytes))).
  split.
  - simpl. rewrite IHp. f_equal.
    rewrite !unhex_hex_digit.
    + symmetry. apply N.div_mod'.
    + by apply N.mod_lt.
    + apply N.Div0.div_lt_upper_bound. lia.
  - simpl. rewrite IHl. lia.
Qed.

Lemma hex_join_round_trip_witness :
  hex_parse (JS.hex_join [0; 171; 255; 16]) = [0; 171; 255; 16]
  ∧ JS.hex_join [0; 171; 255; 16] = "00abff10".
Proof.
  split; [|reflexivity].
  apply (hex_join_round_trip [0; 171; 255; 16]).
  repeat constructor.
Defined.

(** ** The store under [saveSecret] *)

Lemma getItem_setItem_ne ls ls' key key' value :
  key ≠ key' → Storage.setItem ls key value = Ok ls' →
  Storage.getItem ls' key' = Storage.getItem ls key'.
Proof.
  unfold Storage.setItem, Storage.getItem. intros Hne.
  destruct (Storage.accessible ls); [|done].
  case_match; [|done]. intros [= <-]. simpl.
  by rewrite lookup_insert_ne.
Qed.

Lemma getItem_removeItem ls ls' key key' :
  Storage.removeItem ls key = Ok ls' →
  Storage.getItem ls' key'
  = if decide (key = key') then Ok None else Storage.getItem ls key'.
Proof.
  unfold Storage.removeItem, Storage.getItem.
  destruct (Storage.accessible ls); [|done]. intros [= <-]. simpl.
  destruct (decide (key = key')) as [->|Hne].
  - by rewrite lookup_delete_eq.
  - by rewrite lookup_delete_ne.
Qed.

Lemma saveSecret_store (table : string) (player : option string) (hand : N)
    (secret : string) (w : World) :
  ∃ v,
    saveSecret table player hand secret w = (Ok tt, {| window := v; trace := trace w |})
    ∧ (loadStoredSecret v table player hand = secret ∨ v = window w)
    ∧ (∀ table' player' hand',
         getSecretStorageKey table' player' hand'
         ≠ getSecretStorageKey table player hand →
         loadStoredSecret v table' player' hand'
         = loadStoredSecret (window w) table' player' hand').
Proof.
  unfold saveSecret, Eff.bind, Eff.get_window, Eff.try_ignore,
    Eff.storage_write, Eff.ret.
  destruct w as [v tr]; simpl.
  destruct (getSecretStorageKey table player hand) as [key|] eqn:Hk;
    [|eexists; split_and!; [done | by right | done]].
  destruct v as [ls|]; simpl; [|eexists; split_and!; [done | by right | done]].
  destruct (JS.truthy secret) eqn:Ht; simpl.
  - destruct (Storage.setItem ls key secret) as [ls'|] eqn:Hs;
      (eexists; split_and!; [done | |]); try (by right); try done.
    + left. unfold loadStoredSecret. by rewrite Hk, (setItem_getItem _ _ _ _ Hs).
    + intros table' player' hand' Hne. unfold loadStoredSecret.
      destruct (getSecretStorageKey table' player' hand') as [key'|]; [|done].
      rewrite (getItem_setItem_ne ls ls' key key' secret); [done | congruence | done].
  - destruct secret; [|done].
    destruct (Storage.removeItem ls key) as [ls'|] eqn:Hs;
      (eexists; split_and!; [done | |]); try (by right); try done.
    + left. unfold loadStoredSecret.
      rewrite Hk, (getItem_removeItem _ _ _ _ Hs). by rewrite decide_True.
    + intros table' player' hand' Hne. unfold loadStoredSecret.
      destruct (getSecretStorageKey table' player' hand') as [key'|]; [|done].
      rewrite (getItem_removeItem _ _ _ _ Hs).
      rewrite decide_False; [done | congruence].
Qed.


(** ** Keys are scoped by hand number *)

Lemma lower_unit_digit d : JS.lower_unit (pretty_N_char d) = pretty_N_char d.
Proof. unfold pretty_N_char. by repeat case_match. Qed.

Lemma toLowerCase_pretty_N_go x : ∀ s,
  JS.toLowerCase (pretty_N_go x s) = pretty_N_go x (JS.toLowerCase s).
Proof.
  induction (N.lt_wf_0 x) as [x _ IH]. intros s.
  destruct (decide (0 < x)) as [Hx|Hx].
  - rewrite (pretty_N_go_step x s), (pretty_N_go_step x (JS.toLowerCase s)) by done.
    rewrite IH by (by apply N.div_lt).
    simpl. by rewrite lower_unit_digit.
  - assert (x = 0) as -> by lia. by rewrite !pretty_N_go_0.
Qed.

Lemma toLowerCase_pretty (h : N) : JS.toLowerCase (pretty h) = pretty h.
Proof.
  unfold pretty, pretty_N. case_decide; [done |].
  by rewrite toLowerCase_pretty_N_go.
Qed.

Lemma append_inj_l (a b c : string) : a +:+ b = a +:+ c → b = c.
Proof.
  induction a as [|x a IH]; [done |].
  rewrite !append_cons. intros [= H]. by apply IH.
Qed.

Lemma getSecretStorageKey_hand_inj table player hand hand' key :
  getSecretStorageKey table player hand = Some key →
  getSecretStorageKey table player hand' = Some key →
  hand = hand'.
Proof.
  unfold getSecretStorageKey. destruct player as [a|]; [|done].
  destruct (_ && _); [|done]. intros [= <-] [= H].
  rewrite !toLowerCase_app in H.
  do 5 apply append_inj_l in H.
  rewrite !toLowerCase_pretty in H. by apply (inj pretty) in H.
Qed.

(** The key of a secret is scoped by the hand number: saving (or removing)
    the secret of one hand never changes what is loaded for another hand of
    the same table and player. *)
Theorem saveSecret_other_hand (table : string) (player : option string)
    (hand hand' : N) (secret : string) (w : World) :
  hand ≠ hand' →
  loadStoredSecret (window (snd (saveSecret table player hand secret w)))
    table player hand'
  = loadStoredSecret (window w) table player hand'.
Proof.
  intros Hne.
  destruct (saveSecret_store table player hand secret w) as (v & -> & _ & Hother).
  simpl.
  destruct (getSecretStorageKey table player hand') as [key'|] eqn:Hk'.
  - apply Hother. rewrite Hk'. intros Hk. symmetry in Hk.
    by apply Hne, (getSecretStorageKey_hand_inj table player hand hand' key').
  - unfold loadStoredSecret. by rewrite Hk'.
Qed.

Lemma saveSecret_other_hand_witness :
  let w := {| window := Some Sample.store; trace := [] |} in
  loadStoredSecret (window (snd (saveSecret "0xt" (Some "0xP1") 6 "77" w)))
    "0xt" (Some "0xP1") 5 = "5e"
  ∧ loadStoredSecret (window (snd (saveSecret "0xt" (Some "0xP1") 6 "77" w)))
      "0xt" (Some "0xP1") 6 = "77".
Proof.
  intros w. split; [|reflexivity].
  rewrite (saveSecret_other_hand "0xt" (Some "0xP1") 6 5 "77" w); [reflexivity | lia].
Defined.

(** ** How request-cards ends *)

Lemma handleRequestCards_with_window e table player hand w :
  is_Some (window w) →
  handleRequestCards e table player hand w
  = match hashSecretToBytes (randomSecret e) with
    | None =>
        (Throw "Failed to generate secret hash",
         snd (saveSecret table player hand (randomSecret e) w))
    | Some C =>
        (Ok tt,
         {| window := window (snd (saveSecret table player hand (randomSecret e) w));
            trace := trace w
              ++ [{| at_hand := hand;
                     made := ConsoleLog hand
                               (N.of_nat (String.length (randomSecret e))) |};
                  {| at_hand := hand; made := SubmitCommit table C |}] |})
    end.
Proof.
  intros [ls Hw]. unfold handleRequestCards, generateSecret.
  unfold Eff.bind at 1 2. unfold Eff.get_window at 1. rewrite Hw.
  unfold Eff.ret at 1. unfold Eff.bind at 1.
  destruct (saveSecret_quiet table player hand (randomSecret e) w) as [v Hv].
  rewrite Hv. destruct (hashSecretToBytes _); [|done].
  unfold Eff.bind, Eff.emit. simpl. by rewrite <- app_assoc.
Qed.

(** [handleRequestCards] ends in one of three ways.  Without a window it
    raises before anything happens.  With a generated secret that is empty
    it raises "Failed to generate secret hash" after [saveSecret] has run
    with the empty secret (which removes a stored one), and no call is made.
    Otherwise it reaches the collaborator: the log line and one commit with
    the 32-byte hash of the secret, whatever the store did with the write.
    Random bytes of [window.crypto], one at least, never give the empty
    secret. *)
Theorem handleRequestCards_outcome (e : entropy) (table : string)
    (player : option string) (hand : N) (w : World) :
  (window w = None →
     handleRequestCards e table player hand w = (Throw "ReferenceError", w))
  ∧ (is_Some (window w) → randomSecret e = "" →
     handleRequestCards e table player hand w
     = (Throw "Failed to generate secret hash",
        snd (saveSecret table player hand "" w))
     ∧ trace (snd (handleRequestCards e table player hand w)) = trace w
     ∧ loadStoredSecret (window (snd (handleRequestCards e table player hand w)))
         table player hand = "")
  ∧ (is_Some (window w) → randomSecret e ≠ "" →
     ∃ v C,
       handleRequestCards e table player hand w
       = (Ok tt,
          {| window := v;
             trace := trace w
               ++ [{| at_hand := hand;
                      made := ConsoleLog hand
                                (N.of_nat (String.length (randomSecret e))) |};
                   {| at_hand := hand; made := SubmitCommit table C |}] |})
       ∧ C = Sha3.sha3_256 (JS.encode (randomSecret e))
       ∧ length C = 32%nat)
  ∧ (∀ bytes, e = CryptoBytes bytes → bytes ≠ [] → randomSecret e ≠ "").
Proof.
  split_and!.
  - intros Hw. unfold handleRequestCards, generateSecret, Eff.bind, Eff.get_window.
    by rewrite Hw.
  - intros Hw He.
    rewrite (handleRequestCards_with_window _ _ _ _ _ Hw), He. simpl.
    destruct (saveSecret_store table player hand "" w) as (v & Hv & Hload & _).
    rewrite Hv. simpl. split_and!; [done | done |].
    destruct Hload as [Hl | ->]; [done |].
    (* the window did not change: no key, or the store is closed *)
    destruct Hw as [ls Hw]. unfold loadStoredSecret.
    destruct (getSecretStorageKey table player hand) as [key|] eqn:Hk; [|done].
    rewrite Hw.
    unfold saveSecret, Eff.bind, Eff.get_window, Eff.try_ignore,
      Eff.storage_write in Hv. rewrite Hk, Hw in Hv. simpl in Hv. rewrite Hw in Hv.
    unfold Storage.removeItem, Storage.getItem in *.
    destruct (Storage.accessible ls) eqn:Ha; [|done].
    injection Hv as Hv. rewrite <- Hv at 1. simpl. by rewrite lookup_delete_eq.
  - intros Hw He. apply truthy_spec in He.
    rewrite (handleRequestCards_with_window _ _ _ _ _ Hw).
    unfold hashSecretToBytes. rewrite He.
    eexists _, _. split_and!; [reflexivity | reflexivity | apply sha3_256_length].
  - intros bytes -> Hne. destruct bytes as [|b bytes]; [done |]. discriminate.
Qed.

Lemma handleRequestCards_outcome_witness :
  let w := {| window := Some Sample.store; trace := [] |} in
  let e := MathRandom "0" "0" in
  fst (handleRequestCards e "0xt" (Some "0xP1") 5 w)
  = Throw "Failed to generate secret hash"
  ∧ loadStoredSecret (window w) "0xt" (Some "0xP1") 5 = "5e"
  ∧ loadStoredSecret (window (snd (handleRequestCards e "0xt" (Some "0xP1") 5 w)))
      "0xt" (Some "0xP1") 5 = "".
Proof.
  intros w e.
  destruct (handleRequestCards_outcome e "0xt" (Some "0xP1") 5 w)
    as (_ & Hempty & _).
  destruct Hempty as (Hrun & _ & Hload); [by eexists | reflexivity |].
  split_and!; [by rewrite Hrun | reflexivity | exact Hload].
Defined.

(** ** Who has committed and revealed *)

Lemma indexOf_from_spec l : ∀ i x,
  (JS.indexOf_from i l x = -1 ∧ x ∉ l)%Z
  ∨ ∃ k, JS.indexOf_from i l x = (i + Z.of_nat k)%Z ∧ firstIndex l x k.
Proof.
  induction l as [|y l IH]; intros i x; simpl.
  - left. split; [done | apply not_elem_of_nil].
  - destruct (Nat.eqb_spec y x) as [->|Hne].
    + right. exists 0%nat. split; [lia |]. split; [done | lia].
    + destruct (IH (i + 1)%Z x) as [[Hm Hnot]|(k & Hk & Hat & Hfirst)].
      * left. split; [done |]. rewrite not_elem_of_cons. split; [congruence | done].
      * right. exists (S k). split; [lia |]. split; [done |].
        intros [|j] Hj; simpl; [congruence | apply Hfirst; lia].
Qed.

Lemma firstIndex_unique l x k k' : firstIndex l x k → firstIndex l x k' → k = k'.
Proof.
  intros [Hk Hfk] [Hk' Hfk'].
  destruct (Nat.lt_trichotomy k k') as [Hlt|[->|Hlt]]; [|done|].
  - by apply Hfk' in Hlt.
  - by apply Hfk in Hlt.
Qed.

Lemma indexOf_first l x k : firstIndex l x k → JS.indexOf l x = Z.of_nat k.
Proof.
  intros Hk. unfold JS.indexOf.
  destruct (indexOf_from_spec l 0%Z x) as [[_ Hnot]|(k' & -> & Hk')].
  - destruct Hk as [Hk _]. by apply list_elem_of_lookup_2 in Hk.
  - rewrite (firstIndex_unique _ _ _ _ Hk Hk'). lia.
Qed.

Lemma indexOf_absent l x : x ∉ l → JS.indexOf l x = (-1)%Z.
Proof.
  intros Hnot. unfold JS.indexOf.
  destruct (indexOf_from_spec l 0%Z x) as [[-> _]|(k' & _ & Hk' & _)]; [done |].
  by apply list_elem_of_lookup_2 in Hk'.
Qed.

Lemma bit_at_index (bits : list bool) (l : list nat) (x : nat) :
  (0 <=? JS.indexOf l x)%Z && JS.at_true bits (JS.indexOf l x) = true
  ↔ ∃ k, firstIndex l x k ∧ bits !! k = Some true.
Proof.
  unfold JS.indexOf.
  destruct (indexOf_from_spec l 0%Z x) as [[-> Hnot]|(k & -> & Hk)].
  - split; [done |]. intros (k & [Hk _] & _).
    by apply list_elem_of_lookup_2 in Hk.
  - unfold JS.at_true. replace (0 + Z.of_nat k)%Z with (Z.of_nat k) by lia.
    rewrite Nat2Z.id.
    destruct (Z.leb_spec 0 (Z.of_nat k)); [|lia].
    destruct (Z.ltb_spec (Z.of_nat k) 0); [lia |]. simpl.
    split.
    + intros Hb. exists k. split; [done |].
      by destruct (bits !! k) as [[]|].
    + intros (k' & Hk' & Hb). rewrite (firstIndex_unique _ _ _ _ Hk Hk'). by rewrite Hb.
Qed.

(** The player counts as committed (revealed) exactly when the seat is in
    the participant list and the bit at the seat's first position there is
    set.  A seat that is not in the hand, no seat at all, or a bit vector
    too short for the position all give "no". *)
Theorem participation_bits (p : LifecyclePanelProps) (st : PanelState) :
  (hasCommitted p st = true
   ↔ ∃ seat k, playerSeat p = Some seat
               ∧ firstIndex (playersInHand st) seat k
               ∧ commitStatus st !! k = Some true)
  ∧ (hasRevealed p st = true
     ↔ ∃ seat k, playerSeat p = Some seat
                 ∧ firstIndex (playersInHand st) seat k
                 ∧ revealStatus st !! k = Some true).
Proof.
  unfold hasCommitted, hasRevealed, playerHandIdx.
  destruct (playerSeat p) as [seat|].
  - rewrite !bit_at_index. split; (split; [intros (k & ? & ?); by exists seat, k |]);
      intros (? & k & [= <-] & ? & ?); by exists k.
  - simpl. split; (split; [done | by intros (? & ? & ? & _)]).
Qed.

(** ** The progress counts *)

Lemma countTrue_le (l : list bool) : (countTrue l ≤ length l)%nat.
Proof. unfold countTrue. apply List.filter_length_le. Qed.

(** When the bit vectors are no longer than the participant list, the
    counts shown never exceed the denominator: the bar stays within 100%. *)
Theorem progress_within_total (st : PanelState) :
  (length (commitStatus st) ≤ length (playersInHand st))%nat →
  (length (revealStatus st) ≤ length (playersInHand st))%nat →
  (committedCount st ≤ totalPlayers st)%nat
  ∧ (revealedCount st ≤ totalPlayers st)%nat.
Proof.
  intros Hc Hr.
  pose proof (countTrue_le (commitStatus st)) as Hcc.
  pose proof (countTrue_le (revealStatus st)) as Hrc.
  unfold committedCount, revealedCount, totalPlayers, orElse in *.
  destruct (length (playersInHand st)) as [|n] eqn:Hn; simpl.
  - destruct (countTrue (commitStatus st)); simpl; lia.
  - lia.
Qed.

Lemma progress_within_total_witness :
  let st := setSnapshot [true; false; true] [true; false; false] [0; 1; 2]%nat
              initialState in
  (committedCount st ≤ totalPlayers st)%nat
  ∧ (revealedCount st ≤ totalPlayers st)%nat
  ∧ committedCount st = 2%nat ∧ totalPlayers st = 3%nat.
Proof.
  intros st.
  destruct (progress_within_total st) as [Hc Hr]; [simpl; lia | simpl; lia |].
  split_and!; [exact Hc | exact Hr | reflexivity | reflexivity].
Defined.

(** ** Hole cards at a seat *)

(** [getHoleCardsForSeat]: no cards before PREFLOP, without a game state, or
    for a seat that is not in the hand; for a seat in the hand, the entry of
    [holeCards] at the seat's position in the participant list, and no cards
    when [holeCards] has no entry there. *)
Theorem getHoleCardsForSeat_spec (gameState : option GameState.t)
    (playersInHand : list nat) (holeCards : list (list nat)) (seatIdx : nat) :
  (gameState = None → 
     PokerTable.getHoleCardsForSeat gameState playersInHand holeCards seatIdx = [])
  ∧ (∀ gs, gameState = Some gs → GameState.phase gs < GAME_PHASES.PREFLOP →
       PokerTable.getHoleCardsForSeat gameState playersInHand holeCards seatIdx = [])
  ∧ (seatIdx ∉ playersInHand →
       PokerTable.getHoleCardsForSeat gameState playersInHand holeCards seatIdx = [])
  ∧ (∀ gs k, gameState = Some gs → GAME_PHASES.PREFLOP ≤ GameState.phase gs →
       playersInHand !! k = Some seatIdx → NoDup playersInHand →
       PokerTable.getHoleCardsForSeat gameState playersInHand holeCards seatIdx
       = default [] (holeCards !! k)).
Proof.
  unfold PokerTable.getHoleCardsForSeat. split_and!.
  - by intros ->.
  - intros gs -> Hlt. apply N.ltb_lt in Hlt. by rewrite Hlt.
  - intros Hnot. destruct gameState as [gs|]; [|done].
    rewrite (indexOf_absent _ _ Hnot). by destruct (_ <? _).
  - intros gs k -> Hge Hk Hnodup.
    assert (firstIndex playersInHand seatIdx k) as Hfirst.
    { split; [done |]. intros j Hj Hjk.
      pose proof (NoDup_lookup _ _ _ _ Hnodup Hjk Hk). lia. }
    rewrite (indexOf_first _ _ _ Hfirst), Nat2Z.id.
    destruct (N.ltb_spec (GameState.phase gs) GAME_PHASES.PREFLOP); [lia |].
    destruct (Z.eqb_spec (Z.of_nat k) (-1)); [lia |]. simpl.
    destruct (Z.leb_spec (Z.of_nat (length holeCards)) (Z.of_nat k)).
    + rewrite lookup_ge_None_2; [done | lia].
    + by destruct (holeCards !! k).
Qed.

Lemma getHoleCardsForSeat_spec_witness :
  let gs := {| GameState.phase := GAME_PHASES.FLOP; GameState.actionOn := None |} in
  PokerTable.getHoleCardsForSeat (Some gs) [4; 1; 3]%nat
    [[10; 11]; [20; 21]; [30; 31]]%nat 1 = [20; 21]%nat
  ∧ PokerTable.getHoleCardsForSeat (Some gs) [4; 1; 3]%nat
      [[10; 11]; [20; 21]; [30; 31]]%nat 2 = [].
Proof.
  intros gs.
  destruct (getHoleCardsForSeat_spec (Some gs) [4; 1; 3]%nat
              [[10; 11]; [20; 21]; [30; 31]]%nat 1) as (_ & _ & _ & Hin).
  split; [|reflexivity].
  rewrite (Hin gs 1%nat); [reflexivity | reflexivity | | reflexivity |].
  - vm_compute. discriminate.
  - apply (bool_decide_eq_true_1 (NoDup [4; 1; 3]%nat)). vm_compute. reflexivity.
Defined.

(** ** Renders *)

Lemma render_keeps_state w p st :
  let st' := render w p st in
  activeAction st' = activeAction st
  ∧ status st' = status st
  ∧ inFlight st' = inFlight st
  ∧ commitStatus st' = commitStatus st
  ∧ revealStatus st' = revealStatus st
  ∧ playersInHand st' = playersInHand st.
Proof.
  unfold render, useEffectAutoReveal, autoRevealBody, useMemoStoredSecret.
  repeat (case_match; simpl); done.
Qed.

Lemma useMemoStoredSecret_key w p st :
  ∃ v, storedSecretMemo (useMemoStoredSecret w p st) = Some (memoKey p, v).
Proof.
  unfold useMemoStoredSecret, memoKey.
  destruct (storedSecretMemo st) as [[old v]|] eqn:Hm; [|by eexists].
  destruct (bool_decide _) eqn:Hd; [|by eexists].
  apply bool_decide_eq_true in Hd as ->. by eexists.
Qed.

Lemma useMemoStoredSecret_same w p st v :
  storedSecretMemo st = Some (memoKey p, v) → useMemoStoredSecret w p st = st.
Proof.
  unfold useMemoStoredSecret, memoKey. intros ->. by rewrite bool_decide_eq_true_2.
Qed.

Lemma useEffectAutoReveal_memo p st :
  storedSecretMemo (useEffectAutoReveal p st) = storedSecretMemo st.
Proof.
  unfold useEffectAutoReveal, autoRevealBody. by repeat (case_match; simpl).
Qed.

Lemma render_memo_key w p st :
  ∃ v, storedSecretMemo (render w p st) = Some (memoKey p, v).
Proof.
  unfold render. rewrite useEffectAutoReveal_memo. apply useMemoStoredSecret_key.
Qed.

(** A render with nothing changed does nothing: rendering twice is
    rendering once, and new props equal to the ones shown are no event at
    all.  The memo is not recomputed, the effect does not run again, no
    timeout is armed or cleared. *)
Theorem render_idempotent (s : System) (ev : event) :
  rerender (rerender s) = rerender s
  ∧ step (step s ev) (NewProps (props (step s ev))) = step s ev.
Proof.
  assert (∀ s', rerender (rerender s') = rerender s') as Hidem.
  { intros s'. unfold rerender. simpl. f_equal.
    set (w := window (world s')). set (p := props s'). set (st := panel s').
    destruct (render_memo_key w p st) as [v Hv].
    unfold render at 1.
    rewrite (useMemoStoredSecret_same w p _ v Hv).
    unfold useEffectAutoReveal.
    by rewrite (render_deps w p st), bool_decide_eq_true_2. }
  split; [apply Hidem |].
  unfold step at 1. simpl.
  replace {| world := world (step s ev); props := props (step s ev);
             panel := panel (step s ev) |} with (step s ev) by (by destruct (step s ev)).
  unfold step. apply Hidem.
Qed.

(** ** The action slot *)

Lemma slot_inv_handle s ev : slot_inv (panel s) → slot_inv (panel (handle s ev)).
Proof.
  unfold slot_inv. intros Hinv.
  destruct ev as [p|b e| |i outcome|commits reveals players]; simpl.
  - done.
  - unfold click. destruct (_ && _); [|done].
    unfold runLifecycleAction. destruct (actionOf _ _ _ _) as [[[]|m] w]; simpl.
    + intros _. by destruct (inFlight (panel s)).
    + done.
  - unfold timeoutFires. destruct (autoRevealTimeout (panel s)); [|done].
    unfold runLifecycleAction. simpl. intros _. by destruct (inFlight (panel s)).
  - unfold settle. destruct (inFlight (panel s) !! i) as [[name|name]|] eqn:Hi;
      [destruct outcome as [[]|m] .. |]; simpl; try done.
    intros Ha Hnil. apply Hinv in Ha.
    apply (f_equal length) in Hnil. rewrite length_insert in Hnil.
    by destruct (inFlight (panel s)).
  - unfold fetchStatus. by destruct (promiseAll _ _ _) as [[[??]?]|?].
Qed.

Lemma slot_inv_step s ev : slot_inv (panel s) → slot_inv (panel (step s ev)).
Proof.
  intros Hinv. apply (slot_inv_handle s ev) in Hinv.
  unfold step, rerender, slot_inv in *. simpl.
  destruct (render_keeps_state (window (world (handle s ev))) (props (handle s ev))
              (panel (handle s ev))) as (-> & _ & -> & _).
  done.
Qed.

Lemma slot_inv_mount w p : slot_inv (panel (mount w p)).
Proof.
  unfold mount, rerender, slot_inv. cbn [panel props world window].
  destruct (render_keeps_state w p initialState) as (-> & _). done.
Qed.

Lemma slot_inv_run evs : ∀ s, slot_inv (panel s) → slot_inv (panel (run s evs)).
Proof.
  induction evs as [|ev evs IH]; intros s Hinv; [done |].
  simpl. by apply IH, slot_inv_step.
Qed.

(** The slot does not leak: in a mounted panel, whenever no call of
    [runLifecycleAction] is suspended any more, the tag is clear and no
    button is held disabled by it. *)
Theorem slot_released_when_idle (w : Window) (p : LifecyclePanelProps)
    (evs : list event) :
  let s := run (mount w p) evs in
  inFlight (panel s) = [] →
  activeAction (panel s) = None
  ∧ disabled SitToggleButton (props s) (panel s) = false
  ∧ disabled LeaveTableButton (props s) (panel s) = false
  ∧ disabled LeaveAfterHandButton (props s) (panel s) = false.
Proof.
  intros s Hidle.
  assert (slot_inv (panel s)) as Hinv by apply slot_inv_run, slot_inv_mount.
  assert (activeAction (panel s) = None) as Hnone.
  { destruct (activeAction (panel s)) eqn:Ha; [|done].
    exfalso. apply Hinv; [by rewrite Ha | done]. }
  simpl. by rewrite Hnone.
Qed.

Lemma slot_released_when_idle_witness :
  let s := run (mount (Some Sample.store) (Sample.propsAt GAME_PHASES.COMMIT 5))
             [Clicked SitToggleButton Sample.noEntropy;
              Settled 0 (Ok tt); Settled 0 (Throw "refresh failed")] in
  activeAction (panel s) = None
  ∧ status (panel s) = Some (Failure "refresh failed")
  ∧ actionCalls s = [SitOut "0xt"].
Proof.
  intros s.
  destruct (slot_released_when_idle (Some Sample.store)
              (Sample.propsAt GAME_PHASES.COMMIT 5)
              [Clicked SitToggleButton Sample.noEntropy;
               Settled 0 (Ok tt); Settled 0 (Throw "refresh failed")]) as [Hnone _].
  - reflexivity.
  - split_and!; [exact Hnone | reflexivity | reflexivity].
Defined.

(** ** What the timeout reveals *)

Lemma render_timeout w p st t :
  autoRevealTimeout (render w p st) = Some t →
  (autoRevealDeps (render w p st) = autoRevealDeps st
   ∧ autoRevealTimeout st = Some t)
  ∨ (t = {| timeout_table := tableAddress p;
            timeout_secret := storedSecret (render w p st) |}
     ∧ phase p = GAME_PHASES.REVEAL
     ∧ JS.truthy (storedSecret (render w p st)) = true
     ∧ (0 ≤ playerHandIdx p (render w p st))%Z
     ∧ hasRevealed p (render w p st) = false).
Proof.
  unfold render, useEffectAutoReveal.
  destruct (useMemoStoredSecret_cells w p st) as (_ & Ht & Hd & _).
  set (st1 := useMemoStoredSecret w p st) in *.
  destruct (bool_decide _).
  - intros Hsome. left. by rewrite Hd, <- Ht.
  - unfold autoRevealBody.
    destruct (autoRevealGuard p (setTimeout None st1)) eqn:Hg; simpl; [|done].
    intros [= <-]. right. unfold autoRevealGuard in Hg.
    repeat (apply andb_prop in Hg as [Hg ?]). simpl in *.
    split_and!; try done.
    + by apply N.eqb_eq.
    + by apply Z.leb_le.
    + by apply negb_true_iff.
Qed.

Lemma timeout_ok_render w p st : timeout_ok st → timeout_ok (render w p st).
Proof.
  intros Hok t Ht.
  destruct (render_timeout w p st t Ht)
    as [(Hd & Ht0)|(-> & Hph & Htr & Hidx & Hrev)].
  - rewrite Hd. by apply Hok.
  - rewrite render_deps. unfold autoRevealDepsOf. simpl.
    rewrite Hph, Hrev. by eexists _, _.
Qed.

Lemma timeout_ok_step s ev : timeout_ok (panel s) → timeout_ok (panel (step s ev)).
Proof.
  intros Hok. unfold step, rerender. simpl. apply timeout_ok_render.
  destruct (handle_effect s ev) as (_ & Hd & _ & _ & Hev).
  intros t Ht. rewrite Hd. apply Hok.
  destruct Hev as [(Ht1 & _)|(_ & _ & Ht1 & _)]; congruence.
Qed.

Lemma timeout_ok_run evs : ∀ s, timeout_ok (panel s) → timeout_ok (panel (run s evs)).
Proof.
  induction evs as [|ev evs IH]; intros s Hok; [done |].
  simpl. by apply IH, timeout_ok_step.
Qed.

Lemma timeout_ok_mount w p : timeout_ok (panel (mount w p)).
Proof.
  unfold mount, rerender. cbn [panel props world window].
  apply timeout_ok_render. by intros t.
Qed.

Lemma run_snoc s evs ev : run s (evs ++ [ev]) = step (run s evs) ev.
Proof. unfold run. by rewrite fold_left_app. Qed.

(** After every event the effect has run for what the panel shows. *)
Lemma run_deps w p evs :
  let s := run (mount w p) evs in
  autoRevealDeps (panel s) = Some (autoRevealDepsOf (props s) (panel s)).
Proof.
  destruct evs as [|ev evs] using rev_ind; cbv zeta.
  - unfold run, mount, rerender. cbn [fold_left panel props world window].
    apply render_deps.
  - rewrite run_snoc. unfold step, rerender. cbn [panel props world window].
    apply render_deps.
Qed.

(** In a mounted panel a timeout of the auto-reveal is pending only in the
    REVEAL phase, for a participant of the hand who is not marked as
    revealed, and with a stored secret that is not empty; when it elapses,
    the call it makes is one reveal whose payload is the UTF-8 encoding of
    exactly the stored secret the panel holds. *)
Theorem timeout_reveals_stored_secret (w : Window) (p : LifecyclePanelProps)
    (evs : list event) (t : timeout) :
  let s := run (mount w p) evs in
  autoRevealTimeout (panel s) = Some t →
  phase (props s) = GAME_PHASES.REVEAL
  ∧ (0 ≤ playerHandIdx (props s) (panel s))%Z
  ∧ hasRevealed (props s) (panel s) = false
  ∧ storedSecret (panel s) ≠ ""
  ∧ newEntries s TimeoutElapsed
    = [{| at_hand := handNumber (props s);
          made := RevealSecret (timeout_table t)
                    (JS.encode (storedSecret (panel s))) |}].
Proof.
  intros s Ht.
  assert (timeout_ok (panel s)) as Hok by apply timeout_ok_run, timeout_ok_mount.
  destruct (Hok t Ht) as (idx & h & Hd & Hidx & Htr).
  pose proof (run_deps w p evs) as Hdeps. cbv zeta in Hdeps. fold s in Hdeps.
  rewrite Hd in Hdeps. unfold autoRevealDepsOf in Hdeps.
  injection Hdeps as Hph Hsec Hi Hrev _.
  split_and!; try done.
  - by rewrite <- Hi.
  - apply truthy_spec. by rewrite <- Hsec.
  - unfold newEntries. simpl. unfold timeoutFires. rewrite Ht.
    unfold runLifecycleAction. simpl.
    rewrite drop_app_length. by rewrite Hsec.
Qed.

Lemma timeout_reveals_stored_secret_witness :
  let s := run (mount (Some Sample.store) (Sample.propsAt GAME_PHASES.REVEAL 5))
             [Sample.polled false] in
  phase (props s) = GAME_PHASES.REVEAL
  ∧ newEntries s TimeoutElapsed
    = [{| at_hand := 5; made := RevealSecret "0xt" (JS.encode "5e") |}].
Proof.
  intros s.
  destruct (timeout_reveals_stored_secret (Some Sample.store)
              (Sample.propsAt GAME_PHASES.REVEAL 5) [Sample.polled false]
              {| timeout_table := "0xt"; timeout_secret := "5e" |})
    as (Hph & _ & _ & _ & Hnew).
  - reflexivity.
  - split; [exact Hph | exact Hnew].
Defined.

(** ** The stored secret is read once for a key *)

Lemma mount_memo w p :
  storedSecretMemo (panel (mount w p))
  = Some (memoKey p,
          loadStoredSecret w (tableAddress p) (playerAddress p) (handNumber p)).
Proof.
  unfold mount, rerender. cbn [panel props world window].
  unfold render. rewrite useEffectAutoReveal_memo. reflexivity.
Qed.

Lemma memo_stays_step s ev p v :
  memoKey (props s) = memoKey p →
  storedSecretMemo (panel s) = Some (memoKey p, v) →
  keyStays p [ev] →
  memoKey (props (step s ev)) = memoKey p
  ∧ storedSecretMemo (panel (step s ev)) = Some (memoKey p, v).
Proof.
  intros Hkey Hmemo Hstay. apply Forall_cons in Hstay as [Hev _].
  destruct (handle_effect s ev) as (_ & _ & Hm & Hp & _).
  assert (memoKey (props (handle s ev)) = memoKey p) as Hkey'.
  { destruct ev; rewrite Hp; try done.
    unfold memoKey. by destruct Hev as (-> & -> & ->). }
  unfold step, rerender. cbn [panel props world window].
  split; [done |].
  unfold render. rewrite useEffectAutoReveal_memo.
  rewrite (useMemoStoredSecret_same _ _ _ v); rewrite Hm; [done |].
  by rewrite Hkey'.
Qed.

Lemma memo_stays_run evs : ∀ s p v,
  memoKey (props s) = memoKey p →
  storedSecretMemo (panel s) = Some (memoKey p, v) →
  keyStays p evs →
  memoKey (props (run s evs)) = memoKey p
  ∧ storedSecretMemo (panel (run s evs)) = Some (memoKey p, v).
Proof.
  induction evs as [|ev evs IH]; intros s p v Hkey Hmemo Hstay; [done |].
  apply Forall_cons in Hstay as [Hev Hrest].
  destruct (memo_stays_step s ev p v Hkey Hmemo) as [Hkey' Hmemo'].
  { by constructor. }
  simpl. by apply IH.
Qed.

(** The panel reads the store for a key once: from the first render on, as
    long as table, player and hand number stay the same, the stored secret
    it holds is what [loadStoredSecret] returned at the first render,
    whatever has been written to the store since, by "Request Cards" of this
    very panel included. *)
Theorem stored_secret_read_once (w : Window) (p : LifecyclePanelProps)
    (evs : list event) :
  keyStays p evs →
  storedSecret (panel (run (mount w p) evs))
  = loadStoredSecret w (tableAddress p) (playerAddress p) (handNumber p).
Proof.
  intros Hstay.
  destruct (memo_stays_run evs (mount w p) p _ eq_refl (mount_memo w p) Hstay)
    as [_ Hmemo].
  unfold storedSecret. by rewrite Hmemo.
Qed.

Lemma stored_secret_read_once_witness :
  let evs := [Clicked RequestCardsButton (CryptoBytes (replicate 32 0xab));
              Settled 0 (Ok tt); Settled 0 (Ok tt); Sample.polled false;
              NewProps (Sample.propsAt GAME_PHASES.REVEAL 5);
              Sample.polled false; TimeoutElapsed] in
  let s := run (mount (Some Sample.emptyStore) (Sample.propsAt GAME_PHASES.COMMIT 5))
             evs in
  storedSecret (panel s) = ""
  ∧ String.length (loadStoredSecret (window (world s)) "0xt" (Some "0xP1") 5) = 64%nat
  ∧ map (λ c, match c with SubmitCommit _ _ => true | _ => false end) (actionCalls s)
    = [true]
  ∧ acceptCardsCard (props s) (panel s) = Some SecretNotFound.
Proof.
  intros evs s. split_and!.
  - unfold s.
    rewrite (stored_secret_read_once (Some Sample.emptyStore)
               (Sample.propsAt GAME_PHASES.COMMIT 5) evs); [reflexivity |].
    repeat constructor.
  - vm_compute. reflexivity.
  - vm_compute. reflexivity.
  - vm_compute. reflexivity.
Defined.

(** ** What is revealed is what was committed *)

Lemma revealPayloads_noReveals l : noReveals l → revealPayloads l = [].
Proof.
  induction 1 as [|x l Hx _ IH]; [done |].
  change (revealPayloads (x :: l))
    with (match match made x with RevealSecret _ b => Some b | _ => None end with
          | Some b => b :: revealPayloads l
          | None => revealPayloads l
          end).
  rewrite IH. unfold isReveal in Hx. by destruct (made x).
Qed.

Lemma revealPayloads_step s ev S :
  timeout_ok (panel s) →
  autoRevealDeps (panel s) = Some (autoRevealDepsOf (props s) (panel s)) →
  storedSecret (panel s) = S →
  Forall (λ b, b = JS.encode S) (revealPayloads (trace (world s))) →
  Forall (λ b, b = JS.encode S) (revealPayloads (trace (world (step s ev)))).
Proof.
  intros Hok Hdeps HS Hall.
  change (world (step s ev)) with (world (handle s ev)).
  destruct (handle_effect s ev) as (_ & _ & _ & _ & Hev).
  destruct Hev as [(_ & l & -> & Hn)|(-> & [t Ht] & _)].
  - unfold revealPayloads in *. rewrite omap_app.
    fold (revealPayloads l). rewrite (revealPayloads_noReveals l Hn), app_nil_r. done.
  - simpl. unfold timeoutFires. rewrite Ht. unfold runLifecycleAction. simpl.
    unfold revealPayloads in *. rewrite omap_app. apply Forall_app. split; [done |].
    simpl. constructor; [|done].
    destruct (Hok t Ht) as (idx & h & Hd & _).
    rewrite Hd in Hdeps. unfold autoRevealDepsOf in Hdeps.
    injection Hdeps as _ Hsec _ _ _. by rewrite Hsec, HS.
Qed.

Lemma revealPayloads_run evs : ∀ s p S,
  timeout_ok (panel s) →
  autoRevealDeps (panel s) = Some (autoRevealDepsOf (props s) (panel s)) →
  memoKey (props s) = memoKey p →
  storedSecretMemo (panel s) = Some (memoKey p, S) →
  keyStays p evs →
  Forall (λ b, b = JS.encode S) (revealPayloads (trace (world s))) →
  Forall (λ b, b = JS.encode S) (revealPayloads (trace (world (run s evs)))).
Proof.
  induction evs as [|ev evs IH]; intros s p S Hok Hdeps Hkey Hmemo Hstay Hall; [done |].
  apply Forall_cons in Hstay as [Hev Hrest].
  destruct (memo_stays_step s ev p S Hkey Hmemo) as [Hkey' Hmemo'].
  { by constructor. }
  simpl. apply (IH _ p S); try done.
  - by apply timeout_ok_step.
  - unfold step, rerender. cbn [panel props world window]. apply render_deps.
  - apply revealPayloads_step; try done. unfold storedSecret. by rewrite Hmemo.
Qed.

(** The commitment binds the reveal.  When request-cards has submitted the
    commitment C of a secret the store took, every reveal that a panel
    mounted on that store afterwards makes for the same table, player (in
    any case of the letters) and hand carries bytes whose SHA3-256 hash is
    C. *)
Theorem reveal_matches_commitment (e : entropy) (table : string)
    (player : option string) (p : LifecyclePanelProps) (w w' : World)
    (evs : list event) :
  handleRequestCards e table player (handNumber p) w = (Ok tt, w') →
  writeSucceeded w table player (handNumber p) (randomSecret e) →
  tableAddress p = table →
  sameIdentity player (playerAddress p) →
  keyStays p evs →
  ∃ C,
    last (trace w')
    = Some {| at_hand := handNumber p; made := SubmitCommit table C |}
    ∧ Forall (λ b, Sha3.sha3_256 b = C)
        (revealPayloads (trace (world (run (mount (window w') p) evs)))).
Proof.
  intros Hrun (key & ls & ls' & Hk & Hw & Hs) Htable Hcase Hstay.
  destruct (handleRequestCards_submitted _ _ _ _ _ _ Hrun) as (v & C & HC & Hsave & ->).
  assert (JS.truthy (randomSecret e) = true) as Ht.
  { unfold hashSecretToBytes in HC. by destruct (JS.truthy _). }
  rewrite (saveSecret_written _ _ _ _ _ _ _ _ Hk Hw Ht Hs) in Hsave.
  injection Hsave as <-. cbn [window trace].
  exists C. split; [apply last_two |].
  rewrite (getSecretStorageKey_case _ _ _ _ Hcase), <- Htable in Hk.
  pose proof (loadStoredSecret_written ls ls' _ _ _ key _ Hk Hs) as Hload.
  pose proof (mount_memo (Some ls') p) as Hmemo. rewrite Hload in Hmemo.
  eapply Forall_impl.
  - apply (revealPayloads_run evs (mount (Some ls') p) p (randomSecret e));
      try done.
    + apply timeout_ok_mount.
    + apply (run_deps (Some ls') p []).
  - intros b ->. unfold hashSecretToBytes in HC. rewrite Ht in HC. by injection HC.
Qed.

Lemma reveal_matches_commitment_witness :
  let e := CryptoBytes (replicate 32 0xab) in
  let p := Sample.propsAt GAME_PHASES.REVEAL 7 in
  let w := {| window := Some Sample.emptyStore; trace := [] |} in
  let w' := snd (handleRequestCards e "0xt" (Some "0xp1") 7 w) in
  let s := run (mount (window w') p) [Sample.polled false; TimeoutElapsed] in
  ∃ C,
    last (trace w') = Some {| at_hand := 7; made := SubmitCommit "0xt" C |}
    ∧ Forall (λ b, Sha3.sha3_256 b = C) (revealPayloads (trace (world s)))
    ∧ length (revealPayloads (trace (world s))) = 1%nat.
Proof.
  intros e p w w' s.
  destruct (reveal_matches_commitment e "0xt" (Some "0xp1") p w w'
              [Sample.polled false; TimeoutElapsed]) as (C & Hlast & Hall).
  - vm_compute. reflexivity.
  - eexists _, _, _. split_and!; [reflexivity | reflexivity | vm_compute; reflexivity].
  - reflexivity.
  - reflexivity.
  - repeat constructor.
  - exists C. split_and!; [exact Hlast | exact Hall | vm_compute; reflexivity].
Defined.

(** ** Which calls an event can make *)

Ltac split_conditions :=
  repeat match goal with
  | H : _ && _ = true |- _ => apply andb_prop in H as [? ?]
  | H : _ || _ = false |- _ => apply orb_false_iff in H as [? ?]
  | H : negb _ = true |- _ => apply negb_true_iff in H
  | H : negb _ = false |- _ => apply negb_false_iff in H
  | H : isNull ?o = true |- _ => destruct o; [discriminate H | clear H]
  | H : (_ =? _)%N = true |- _ => apply N.eqb_eq in H
  | H : (_ =? _)%N = false |- _ => apply N.eqb_neq in H
  | H : (_ <? _)%nat = false |- _ => apply Nat.ltb_ge in H
  end.

Lemma newEntries_app s ev l :
  trace (world (handle s ev)) = trace (world s) ++ l → newEntries s ev = l.
Proof. intros H. unfold newEntries. by rewrite H, drop_app_length. Qed.

(** The entries of a click that is delivered. *)
Lemma click_entries s b e :
  rendered b (props s) (panel s) && negb (disabled b (props s) (panel s)) = true →
  ∀ x, x ∈ newEntries s (Clicked b e) → permitted s (Clicked b e) x.
Proof.
  intros Hcond x. unfold permitted. cbv zeta.
  assert (∀ c, (rendered b (props s) (panel s)
                && negb (disabled b (props s) (panel s)) = true →
                match c with
                | RevealSecret _ _ | OnRefresh | ConsoleWarn _ | ConsoleLog _ _
                | SubmitCommit _ _ | ConsoleError _ _ => False
                | _ => permitted s (Clicked b e)
                         {| at_hand := handNumber (props s); made := c |}
                end) →
               actionOf b e (props s) (world s)
               = Eff.emit (handNumber (props s)) c (world s) →
               x ∈ newEntries s (Clicked b e) → permitted s (Clicked b e) x) as Hemit.
  { intros c Hc Hact. rewrite (newEntries_app s (Clicked b e)
      [{| at_hand := handNumber (props s); made := c |}]).
    - intros ->%list_elem_of_singleton. specialize (Hc Hcond). by destruct c.
    - simpl. unfold click. rewrite Hcond. unfold runLifecycleAction.
      cbn [world props panel withPanel]. by rewrite Hact. }
  unfold permitted in Hemit. cbv zeta in Hemit.
  destruct b.
  - apply (Hemit (StartHand (tableAddress (props s)))); [|done].
    simpl. unfold startDisabled. intros Hc. split_conditions.
    split_and!; try done. by eexists.
  - (* request cards *)
    unfold newEntries. simpl. unfold click. rewrite Hcond.
    unfold runLifecycleAction. cbn [world props panel withPanel actionOf].
    simpl in Hcond. unfold requestCardsDisabled in Hcond. split_conditions.
    destruct (window (world s)) as [ls|] eqn:Hw.
    + rewrite handleRequestCards_with_window by (by rewrite Hw).
      destruct (saveSecret_quiet (tableAddress (props s)) (playerAddress (props s))
                  (handNumber (props s)) (randomSecret e) (world s)) as [v Hv].
      unfold hashSecretToBytes. destruct (JS.truthy (randomSecret e)).
      * cbn [world trace]. rewrite drop_app_length.
        intros [->|[->|[]%elem_of_nil]%elem_of_cons]%elem_of_cons; simpl.
        -- split; [done |]. by eexists.
        -- split_and!; first [done | by eexists | apply sha3_256_length].
      * rewrite Hv. unfold actionFailed, emitCall, withPanel, Eff.emit.
        cbn [world trace props snd]. rewrite drop_app_length.
        intros ->%list_elem_of_singleton. simpl. split; [done |].
        left. by eexists.
    + assert (handleRequestCards e (tableAddress (props s)) (playerAddress (props s))
                (handNumber (props s)) (world s) = (Throw "ReferenceError", world s))
        as ->.
      { unfold handleRequestCards, generateSecret, Eff.bind, Eff.get_window.
        by rewrite Hw. }
      unfold actionFailed, emitCall, withPanel, Eff.emit.
      cbn [world trace props snd]. rewrite drop_app_length.
      intros ->%list_elem_of_singleton. simpl. split; [done |].
      left. by eexists.
  - (* sit toggle *)
    simpl in Hcond. unfold isSeatedPlayer in Hcond.
    destruct (seatOf (props s)) as [seat|] eqn:Hseat; [|done].
    destruct (SeatInfo.sittingOut seat) eqn:Hout.
    + apply (Hemit (SitIn (tableAddress (props s)))).
      * intros Hc. simpl in Hc. split_conditions.
        unfold isSeatedPlayer, isActivePlayer. rewrite Hseat. simpl. rewrite Hout.
        split_and!; try done. by eexists.
      * simpl. by rewrite Hseat, Hout.
    + apply (Hemit (SitOut (tableAddress (props s)))).
      * intros Hc. simpl in Hc. split_conditions.
        unfold isActivePlayer. rewrite Hseat. simpl. rewrite Hout.
        split_and!; try done. by eexists.
      * simpl. by rewrite Hseat, Hout.
  - apply (Hemit (LeaveTable (tableAddress (props s)))); [|done].
    simpl. intros Hc. split_conditions. split_and!; try done. by eexists.
  - destruct (pendingLeave (props s)) eqn:Hpl.
    + apply (Hemit (CancelLeaveAfterHand (tableAddress (props s)))).
      * simpl. intros Hc. split_conditions. split_and!; try done. by eexists.
      * simpl. by rewrite Hpl.
    + apply (Hemit (LeaveAfterHand (tableAddress (props s)))).
      * simpl. intros Hc. split_conditions. split_and!; try done. by eexists.
      * simpl. by rewrite Hpl.
Qed.

(** Every call the panel makes is made by the one kind of event that may
    make it, under the hand number shown: an action of the collaborator by
    the click on its button, only in its phase and under its conditions and
    only while the tag of the action slot is clear; the reveal by the
    timeout alone, for the table the pending timeout holds; the refresh by
    an action that was fulfilled; an error message by the click or the
    rejected promise of the action it names. *)
Theorem calls_are_permitted (s : System) (ev : event) (x : entry) :
  x ∈ newEntries s ev → permitted s ev x.
Proof.
  destruct ev as [p|b e| |i outcome|commits reveals players].
  - unfold newEntries. simpl. rewrite drop_all. by intros ?%elem_of_nil.
  - destruct (rendered b (props s) (panel s)
              && negb (disabled b (props s) (panel s))) eqn:Hcond.
    + by apply click_entries.
    + unfold newEntries. simpl. unfold click. rewrite Hcond, drop_all.
      by intros ?%elem_of_nil.
  - unfold newEntries. simpl. unfold timeoutFires.
    destruct (autoRevealTimeout (panel s)) as [t|] eqn:Ht.
    + unfold runLifecycleAction. simpl. rewrite drop_app_length.
      intros ->%list_elem_of_singleton. unfold permitted. simpl.
      split_and!; try done. rewrite Ht. by eexists.
    + rewrite drop_all. by intros ?%elem_of_nil.
  - unfold newEntries. simpl. unfold settle.
    destruct (inFlight (panel s) !! i) as [[name|name]|] eqn:Hi;
      [destruct outcome as [[]|m] .. |]; simpl;
      rewrite ?drop_app_length, ?drop_all;
      try (by intros ?%elem_of_nil);
      intros ->%list_elem_of_singleton; unfold permitted; simpl;
      (split; [done |]).
    + exists i, name. by rewrite Hi.
    + right. exists i, m, (AwaitAction name). by rewrite Hi.
    + right. exists i, m, (AwaitRefresh name). by rewrite Hi.
  - unfold newEntries. simpl. unfold fetchStatus.
    destruct (promiseAll _ _ _) as [[[c r] pl]|m]; simpl;
      rewrite ?drop_app_length, ?drop_all; [by intros ?%elem_of_nil |].
    intros ->%list_elem_of_singleton. split; [done |]. simpl. by eexists _, _, _.
Qed.

Lemma calls_are_permitted_witness :
  let s := mount (Some Sample.store) (Sample.propsAt GAME_PHASES.PREFLOP 5) in
  let ev := Clicked LeaveAfterHandButton Sample.noEntropy in
  newEntries s ev = [{| at_hand := 5; made := LeaveAfterHand "0xt" |}]
  ∧ phase (props s) ≠ GAME_PHASES.WAITING
  ∧ newEntries s (Clicked LeaveTableButton Sample.noEntropy) = [].
Proof.
  intros s ev.
  destruct (calls_are_permitted s ev {| at_hand := 5; made := LeaveAfterHand "0xt" |})
    as (_ & _ & _ & Hph & _).
  - vm_compute. apply list_elem_of_singleton. reflexivity.
  - split_and!; [reflexivity | exact Hph | reflexivity].
Defined.

(** ** One action from click to release *)

(** A delivered click whose action reaches the collaborator takes the slot
    and clears the status.  If the promise is rejected, the message becomes
    the status, the error is logged, no refresh is asked for, and the slot is
    released.  If it is fulfilled, the success status is set and [onRefresh]
    is called once while the slot stays taken; the slot is released when the
    refresh settles, and a failed refresh leaves its message as status. *)
Theorem action_from_click_to_release (s : System) (b : button) (e : entropy) :
  inFlight (panel s) = [] →
  rendered b (props s) (panel s) && negb (disabled b (props s) (panel s)) = true →
  fst (actionOf b e (props s) (world s)) = Ok tt →
  let name := actionNameOf b in
  let s1 := step s (Clicked b e) in
  (activeAction (panel s1) = Some name
   ∧ status (panel s1) = None
   ∧ inFlight (panel s1) = [AwaitAction name])
  ∧ (∀ m, let s2 := step s1 (Settled 0 (Throw m)) in
          activeAction (panel s2) = None
          ∧ status (panel s2) = Some (Failure m)
          ∧ inFlight (panel s2) = []
          ∧ map made (newEntries s1 (Settled 0 (Throw m))) = [ConsoleError name m])
  ∧ (let s2 := step s1 (Settled 0 (Ok tt)) in
     activeAction (panel s2) = Some name
     ∧ status (panel s2) = Some Success
     ∧ inFlight (panel s2) = [AwaitRefresh name]
     ∧ map made (newEntries s1 (Settled 0 (Ok tt))) = [OnRefresh]
     ∧ ∀ r, let s3 := step s2 (Settled 0 r) in
            activeAction (panel s3) = None
            ∧ inFlight (panel s3) = []
            ∧ status (panel s3)
              = match r with Ok _ => Some Success | Throw m => Some (Failure m) end
            ∧ ∀ x, x ∈ newEntries s2 (Settled 0 r) → made x ≠ OnRefresh).
Proof.
  intros Hidle Hcond Hok name s1.
  assert (∀ s', let st := panel (rerender s') in
                activeAction st = activeAction (panel s')
                ∧ status st = status (panel s')
                ∧ inFlight st = inFlight (panel s')) as Hrender.
  { intros s'. unfold rerender. cbn [panel].
    destruct (render_keeps_state (window (world s')) (props s') (panel s'))
      as (-> & -> & -> & _). done. }
  assert (activeAction (panel s1) = Some name
          ∧ status (panel s1) = None
          ∧ inFlight (panel s1) = [AwaitAction name]) as (Ha1 & Hs1 & Hf1).
  { unfold s1, step. destruct (Hrender (handle s (Clicked b e))) as (-> & -> & ->).
    simpl. unfold click. rewrite Hcond. unfold runLifecycleAction.
    cbn [world props panel withPanel].
    destruct (actionOf b e (props s) (world s)) as [[[]|m] w]; [|done].
    simpl. by rewrite Hidle. }
  clearbody s1.
  split_and!; try done.
  - intros m s2. unfold s2, step.
    destruct (Hrender (handle s1 (Settled 0 (Throw m)))) as (-> & -> & ->).
    unfold newEntries. simpl. unfold settle. rewrite Hf1. simpl.
    by rewrite drop_app_length.
  - intros s2.
    assert (activeAction (panel s2) = Some name
            ∧ status (panel s2) = Some Success
            ∧ inFlight (panel s2) = [AwaitRefresh name]) as (Ha2 & Hs2 & Hf2).
    { unfold s2, step. destruct (Hrender (handle s1 (Settled 0 (Ok tt)))) as (-> & -> & ->).
      simpl. unfold settle. rewrite Hf1. simpl. by rewrite Ha1. }
    assert (newEntries s1 (Settled 0 (Ok tt))
            = [{| at_hand := handNumber (props s1); made := OnRefresh |}]) as Hnew.
    { unfold newEntries. simpl. unfold settle. rewrite Hf1. simpl.
      by rewrite drop_app_length. }
    clearbody s2.
    split_and!; try done.
    + by rewrite Hnew.
    + intros r s3. unfold s3, step.
      destruct (Hrender (handle s2 (Settled 0 r))) as (-> & -> & ->).
      unfold newEntries. simpl. unfold settle. rewrite Hf2.
      destruct r as [[]|m]; simpl; rewrite ?Hs2, ?drop_all, ?drop_app_length;
        split_and!; try done.
      * by intros x ?%elem_of_nil.
      * by intros x ->%list_elem_of_singleton.
Qed.

Lemma action_from_click_to_release_witness :
  let s := mount (Some Sample.store) (Sample.propsAt GAME_PHASES.WAITING 5) in
  let s3 := run s [Clicked LeaveTableButton Sample.noEntropy;
                   Settled 0 (Ok tt); Settled 0 (Ok tt)] in
  activeAction (panel (step s (Clicked LeaveTableButton Sample.noEntropy)))
  = Some leave
  ∧ activeAction (panel s3) = None
  ∧ map made (trace (world s3)) = [LeaveTable "0xt"; OnRefresh].
Proof.
  intros s s3.
  destruct (action_from_click_to_release s LeaveTableButton Sample.noEntropy)
    as ((Ha & _) & _ & (_ & _ & _ & _ & Hrel)); [reflexivity .. |].
  destruct (Hrel (Ok tt)) as (Hnone & _).
  split_and!; [exact Ha | exact Hnone | reflexivity].
Defined.

(** ** When the auto-reveal does happen *)

Lemma mount_panel w p :
  panel (mount w p)
  = setDeps (Some (phase p,
                   loadStoredSecret w (tableAddress p) (playerAddress p) (handNumber p),
                   (-1)%Z, false, handNumber p))
      (setMemo (Some (memoKey p,
                      loadStoredSecret w (tableAddress p) (playerAddress p)
                        (handNumber p)))
         initialState).
Proof.
  unfold mount, rerender, render, useMemoStoredSecret, useEffectAutoReveal,
    autoRevealBody, autoRevealGuard, autoRevealDepsOf, hasRevealed, playerHandIdx,
    memoKey.
  cbn [panel props world window storedSecretMemo initialState].
  destruct (playerSeat p); simpl; by rewrite ?andb_false_r.
Qed.

(** A panel mounted in the REVEAL phase of a hand other than hand 0, on a
    store that holds a secret for the key, arms the timeout with the first
    poll that shows the player's seat among the participants with the
    reveal bit not set; nothing is revealed before the timeout elapses, and
    then the reveal action is called once, for the table shown, with the
    bytes of the stored secret, and takes the action slot. *)
Theorem first_poll_arms_auto_reveal (w : Window) (p : LifecyclePanelProps)
    (commits reveals : list bool) (players : list nat) (seat k : nat) :
  phase p = GAME_PHASES.REVEAL →
  handNumber p ≠ 0 →
  loadStoredSecret w (tableAddress p) (playerAddress p) (handNumber p) ≠ "" →
  playerSeat p = Some seat →
  firstIndex players seat k →
  reveals !! k ≠ Some true →
  let S := loadStoredSecret w (tableAddress p) (playerAddress p) (handNumber p) in
  let s1 := step (mount w p) (Polled (Ok commits) (Ok reveals) (Ok players)) in
  let s2 := step s1 TimeoutElapsed in
  autoRevealTimeout (panel s1)
  = Some {| timeout_table := tableAddress p; timeout_secret := S |}
  ∧ autoRevealTriggeredRef (panel s1) = handNumber p
  ∧ trace (world s1) = []
  ∧ trace (world s2)
    = [{| at_hand := handNumber p;
          made := RevealSecret (tableAddress p) (JS.encode S) |}]
  ∧ activeAction (panel s2) = Some reveal
  ∧ autoRevealTimeout (panel s2) = None.
Proof.
  intros Hph Hhand Hsecret Hseat Hfirst Hbit S s1 s2.
  assert (panel s1
          = setTimeout (Some {| timeout_table := tableAddress p; timeout_secret := S |})
              (setTriggeredRef (handNumber p)
                 (setDeps (Some (phase p, S, Z.of_nat k, false, handNumber p))
                    (setSnapshot commits reveals players (panel (mount w p)))))
          ∧ world s1 = {| window := w; trace := [] |}
          ∧ props s1 = p) as (Hpanel & Hworld & Hprops).
  { unfold s1, step, rerender. cbn [handle fetchStatus promiseAll snd withPanel
      panel props world].
    split; [|done].
    rewrite mount_panel. fold S.
    unfold render.
    rewrite (useMemoStoredSecret_same _ _ _ S) by done.
    unfold useEffectAutoReveal, autoRevealDepsOf, autoRevealBody, autoRevealGuard,
      hasRevealed, playerHandIdx, storedSecret.
    cbn [autoRevealDeps autoRevealTimeout autoRevealTriggeredRef activeAction
         storedSecretMemo playersInHand revealStatus setDeps setMemo setSnapshot
         setTimeout setTriggeredRef initialState props mount rerender].
    rewrite Hseat, (indexOf_first _ _ _ Hfirst), Hph.
    assert (JS.at_true reveals (Z.of_nat k) = false) as Hat.
    { unfold JS.at_true. destruct (Z.ltb_spec (Z.of_nat k) 0); [done |].
      rewrite Nat2Z.id. by destruct (reveals !! k) as [[]|]. }
    rewrite Hat, andb_false_r.
    rewrite bool_decide_eq_false_2 by (intros [=]; lia).
    apply truthy_spec in Hsecret. fold S in Hsecret. rewrite Hsecret.
    destruct (Z.leb_spec 0 (Z.of_nat k)); [|lia].
    assert ((0 =? handNumber p) = false) as -> by (apply N.eqb_neq; lia).
    reflexivity. }
  clearbody s1.
  assert (trace (world s2)
          = [{| at_hand := handNumber p;
                made := RevealSecret (tableAddress p) (JS.encode S) |}]
          ∧ activeAction (panel s2) = Some reveal
          ∧ autoRevealTimeout (panel s2) = None) as Hs2.
  { unfold s2, step.
    assert (handle s1 TimeoutElapsed
            = runLifecycleAction
                (Eff.emit (handNumber p) (RevealSecret (tableAddress p) (JS.encode S)))
                reveal
                (withPanel (setStatus (Some Accepting))
                   (withPanel (setTimeout None) s1))) as ->.
    { simpl. unfold timeoutFires. rewrite Hpanel. simpl. by rewrite Hprops. }
    destruct (runLifecycleAction_cells
                (Eff.emit (handNumber p) (RevealSecret (tableAddress p) (JS.encode S)))
                reveal
                (withPanel (setStatus (Some Accepting)) (withPanel (setTimeout None) s1)))
      as (_ & _ & _ & _ & Ht & _).
    set (s' := runLifecycleAction _ _ _) in *.
    unfold rerender. cbn [world panel props].
    destruct (render_keeps_state (window (world s')) (props s') (panel s'))
      as (Ha & _).
    destruct (render_cases (window (world s')) (props s') (panel s'))
      as [(_ & _ & Ht')|[(_ & Ht')|(Hne & _)]].
    - rewrite Ha, Ht', Ht. unfold s', runLifecycleAction. simpl. by rewrite Hworld.
    - rewrite Ha, Ht'. unfold s', runLifecycleAction. simpl. by rewrite Hworld.
    - exfalso. apply Hne. unfold s', runLifecycleAction. simpl.
      by rewrite Hpanel, Hprops. }
  destruct Hs2 as (Htrace & Hslot & Hnone).
  split_and!; [by rewrite Hpanel | by rewrite Hpanel | by rewrite Hworld | done ..].
Qed.

Lemma first_poll_arms_auto_reveal_witness :
  let p := Sample.propsAt GAME_PHASES.REVEAL 5 in
  let s2 := run (mount (Some Sample.store) p)
              [Polled (Ok [true; true]) (Ok [true; false]) (Ok [3; 0]%nat);
               TimeoutElapsed] in
  trace (world s2)
  = [{| at_hand := 5; made := RevealSecret "0xt" (JS.encode "5e") |}]
  ∧ activeAction (panel s2) = Some reveal.
Proof.
  intros p s2.
  destruct (first_poll_arms_auto_reveal (Some Sample.store) p
              [true; true] [true; false] [3; 0]%nat 0 1)
    as (_ & _ & _ & Htrace & Hslot & _).
  - reflexivity.
  - discriminate.
  - discriminate.
  - reflexivity.
  - split; [reflexivity |]. intros [|[|j]] Hj; [discriminate | lia | lia].
  - discriminate.
  - split; [exact Htrace | exact Hslot].
Defined.

(** ** The pips of a card *)

(** For a card that is neither face card nor ace, [renderPips] draws as many
    pips as the pip count says when that is between 2 and 10, and none for
    any other count; every pip lies inside the card face, the pips mirror
    each other left to right, and exactly those below the middle are turned
    upside down. *)
Theorem renderPips_spec (pipCount : Z) :
  ∃ pips,
    PokerTable.renderPips false false pipCount = Some pips
    ∧ ((2 ≤ pipCount ≤ 10)%Z → Z.of_nat (length pips) = pipCount)
    ∧ ((pipCount < 2 ∨ 10 < pipCount)%Z → pips = [])
    ∧ Forall (λ q, (0 < PokerTable.left q < 100 ∧ 0 < PokerTable.top q < 100)%Z
                   ∧ (PokerTable.rotated q = true ↔ (50 < PokerTable.top q)%Z)
                   ∧ {| PokerTable.left := 100 - PokerTable.left q;
                        PokerTable.top := PokerTable.top q;
                        PokerTable.rotated := PokerTable.rotated q |} ∈ pips) pips.
Proof.
  eexists. split; [reflexivity |]. split_and!.
  - intros Hn.
    assert (pipCount = 2 ∨ pipCount = 3 ∨ pipCount = 4 ∨ pipCount = 5
            ∨ pipCount = 6 ∨ pipCount = 7 ∨ pipCount = 8 ∨ pipCount = 9
            ∨ pipCount = 10)%Z as Hcases by lia.
    repeat destruct Hcases as [-> | Hcases]; try subst pipCount; reflexivity.
  - intros Hn. destruct pipCount as [|q|q]; [reflexivity | | reflexivity].
    do 4 (try destruct q as [q|q|]; try reflexivity; try lia).
  - destruct pipCount as [|q|q]; [constructor | | constructor].
    do 4 (try destruct q as [q|q|]; try (by constructor));
      repeat constructor; simpl; try lia; try done; set_solver.
Qed.
